(** * The FNCS broker (src/broker.cpp): a shallow embedding and its properties

    The broker is one event loop over a router socket.  Each iteration
    receives one multi-frame message and runs one handler of the
    dispatcher in [main].  The embedding turns one iteration into the
    function [step], from the broker's variables and the received message
    to an [outcome]: back to the poll with new variables, [return 0],
    [broker_die], or behaviour that C++ leaves undefined.

    Conventions.
    - [fncs::time] is [unsigned long long] (the code stores [ULLONG_MAX] in
      it and prints it with [%llu]): a [Z] in [0, 2^64), every operation
      wrapped by [wrap].
    - [n_processing] is an [int]: a [Z], leaving [INT_MIN..INT_MAX] is
      undefined behaviour.
    - [simulators] is a [vector]: a [list], [operator[]] out of range is
      undefined behaviour.  [name_to_index] is a [gmap], [byes] a [gset].
    - Outbound messages, lines of the trace file and [WARN] lines are
      collected as [event]s, in program order.  [TRACE] and [FATAL]
      diagnostics are not recorded.  The destination frame of ACK, BYE,
      DIE and of a grant is [name.c_str()], the name up to its first NUL
      byte; a forwarded PUBLISH carries the whole name.
    - The locals [time_requested] and [time_delta] are not initialised:
      when [>>] stores nothing (an empty or blank frame) the store that
      follows reads an indeterminate value, which is undefined
      behaviour.
    - The broker is taken without a real-time interval ([argc == 2]), so
      the pacing loop on the wall clock is not entered.  Failures of the
      environment ([zmq_poll], [zmsg_recv], allocation in [zchunk_new]
      and [zmsg_dup]) are not inputs of the model.

    The file has the embedding first ([step] and what it calls, then the
    start of [main]), then the vocabulary of the statements, then the
    proofs: the loops, the handlers, the properties of one iteration, the
    invariant of the runs in which the simulators keep to the protocol,
    what every reachable loop boundary keeps of the registry, the fatal
    and the undefined paths, and the numbers as printed and read. *)

From Stdlib Require Import ZArith Lia Ascii String.
From stdpp Require Import base decidable option list strings gmap pretty.

Local Open Scope Z_scope.

(** ** 64-bit times *)

Module FncsTime.

Abbreviation time := Z.

Definition ULLONG_MAX : time := 18446744073709551615.
Definition modulus : Z := 18446744073709551616.

Definition wrap (z : Z) : time := z mod modulus.

Definition add (a b : time) : time := wrap (a + b).
Definition sub (a b : time) : time := wrap (a - b).
Definition mul (a b : time) : time := wrap (a * b).
(** Unsigned division; dividing by zero is undefined behaviour. *)
Definition div (a b : time) : option time :=
  if decide (b = 0) then None else Some (a / b).

Definition INT_MAX : Z := 2147483647.
Definition INT_MIN : Z := -2147483648.

End FncsTime.
Export FncsTime.

(** ** Frames, tags and the text of numbers *)

Module Wire.

(** What the broker reads from a HELLO payload through
    [zconfig_resolve (config, "/time_delta")] followed by
    [fncs::parse_time], and through [zconfig_locate (config, "/values")]
    followed by [fncs::parse_values] (the topics, in order).  [None]
    where the item is absent. *)
Record zconfig := Zconfig {
  cfg_time_delta : option time;
  cfg_values : option (list string)
}.

(** A frame: its bytes, and what [zconfig_chunk_load] makes of them
    ([None]: the bytes are not a configuration). Only the third frame of
    a HELLO is read as a configuration. *)
Record zframe := Zframe {
  data : string;
  config : option zconfig
}.

Definition frame (s : string) : zframe := Zframe s None.

(** Modelled from the spec: the message-type tags declared in the absent
    header fncs.hpp, named as in the spec's wire protocol table. *)
Definition HELLO : string := "HELLO".
Definition ACK : string := "ACK".
Definition TIME_REQUEST : string := "TIME_REQUEST".
Definition TIME_DELTA : string := "TIME_DELTA".
Definition PUBLISH : string := "PUBLISH".
Definition BYE : string := "BYE".
Definition DIE : string := "DIE".

(** Modelled from the spec: the default [time_delta] of one second
    ([fncs::parse_time ("1s")], the parser being absent), in
    nanoseconds. *)
Definition default_time_delta : time := 1000000000.

(** [printf]'s [%llu]. *)
Definition fmt_llu (z : Z) : string := pretty (Z.to_N z).

(** [s.c_str()] as [zstr_sendm] and [zstr_send] read it: the bytes of
    [s] before its first NUL byte. *)
Fixpoint c_str (s : string) : string :=
  match s with
  | String a s' =>
      if bool_decide (a = "000"%char) then EmptyString
      else String a (c_str s')
  | EmptyString => EmptyString
  end.

(** [istringstream >> unsigned long long], as the code uses it on a local
    that is not initialised: the state of the stream is never tested and
    the local is read whatever happened.  Leading white space is skipped.
    At the end of the text (an empty or blank frame) the extraction fails
    before it stores anything: [None], the local is left unwritten.
    Otherwise an optional sign and decimal digits are read and a value is
    stored: 0 without a digit (C++11), [ULLONG_MAX] for a number that
    does not fit; a minus sign negates modulo 2^64. *)
Definition is_space (a : ascii) : bool :=
  bool_decide (a = " "%char) || bool_decide (a = "009"%char)
  || bool_decide (a = "010"%char) || bool_decide (a = "011"%char)
  || bool_decide (a = "012"%char) || bool_decide (a = "013"%char).

Fixpoint skipws (s : string) : string :=
  match s with
  | String a s' => if is_space a then skipws s' else s
  | EmptyString => s
  end.

Definition digit_of (a : ascii) : option Z :=
  let n := Z.of_nat (nat_of_ascii a) in
  if bool_decide (48 <= n <= 57) then Some (n - 48) else None.

(** The digits at the front of [s], folded into [acc]; [None] when
    there is none. *)
Fixpoint read_digits (s : string) (acc : option Z) : option Z :=
  match s with
  | String a s' =>
      match digit_of a with
      | Some d => read_digits s' (Some (default 0 acc * 10 + d))
      | None => acc
      end
  | EmptyString => acc
  end.

Definition read_ull (s : string) : option time :=
  let s1 := skipws s in
  let '(negative, s2) :=
    match s1 with
    | String "-" s' => (true, s')
    | String "+" s' => (false, s')
    | _ => (false, s1)
    end in
  match s1 with
  | EmptyString => None
  | String _ _ =>
      Some match read_digits s2 None with
           | None => 0
           | Some v =>
               if bool_decide (ULLONG_MAX < v) then ULLONG_MAX
               else if negative then wrap (- v) else v
           end
  end.

End Wire.
Export Wire.

(** ** The broker's variables *)

Record SimulatorState := Sim {
  name : string;
  time_requested : time;
  time_delta : time;
  time_last_processed : time;
  processing : bool;
  messages_pending : bool;
  subscription_values : gset string
}.

Definition set_time_requested (t : time) (s : SimulatorState) :=
  Sim (name s) t (time_delta s) (time_last_processed s) (processing s)
      (messages_pending s) (subscription_values s).
Definition set_time_delta (t : time) (s : SimulatorState) :=
  Sim (name s) (time_requested s) t (time_last_processed s) (processing s)
      (messages_pending s) (subscription_values s).
Definition set_time_last_processed (t : time) (s : SimulatorState) :=
  Sim (name s) (time_requested s) (time_delta s) t (processing s)
      (messages_pending s) (subscription_values s).
Definition set_processing (b : bool) (s : SimulatorState) :=
  Sim (name s) (time_requested s) (time_delta s) (time_last_processed s) b
      (messages_pending s) (subscription_values s).
Definition set_messages_pending (b : bool) (s : SimulatorState) :=
  Sim (name s) (time_requested s) (time_delta s) (time_last_processed s)
      (processing s) b (subscription_values s).

Abbreviation SimVec := (list SimulatorState).

(** The variables of [main] that live across iterations of the loop. *)
Record Broker := Mk {
  n_sims : nat;
  byes : gset string;
  n_processing : Z;
  simulators : SimVec;
  name_to_index : gmap string nat;
  time_granted : time;
  do_trace : bool
}.

(** The variables when the loop is entered, for [n] expected simulators
    ([1 <= n <= INT_MAX], checked on the command line). *)
Definition init (n : nat) (tracing : bool) : Broker :=
  Mk n ∅ 0 [] ∅ 0 tracing.

Inductive event :=
| zmsg_send (frames : list string)  (* the first frame is the destination *)
| trace_line (t : time) (topic value : string)
| WARN (text : string).

Inductive outcome :=
| Continue (st : Broker) (out : list event)  (* back to the poll *)
| Return0 (out : list event)                 (* break, then return 0 *)
| Die (out : list event)                     (* broker_die: EXIT_FAILURE *)
| Undefined.                                 (* undefined behaviour *)

(** [for (size_t i=0; i<n; ++i) body]: the body may hit undefined
    behaviour, which ends the loop. *)
Definition for_loop {A} (n : nat) (body : nat → A → option A) (a : A)
  : option A :=
  foldl (λ acc i, acc ≫= body i) (Some a) (seq 0 n).

(** ** broker_die *)

Definition die_messages (simulators : SimVec) : list event :=
  (λ s, zmsg_send [c_str (name s); DIE]) <$> simulators.

Definition broker_die (simulators : SimVec) : outcome :=
  Die (die_messages simulators).

(** [simulators[index].field = v]: the record is updated in place. *)
Definition update_sim (index : nat) (f : SimulatorState → SimulatorState)
    (sims : SimVec) : option SimVec :=
  s ← sims !! index; Some (<[index := f s]> sims).

(** ** HELLO (lines 202-311) *)

(** The body of the loop that sends ACK. *)
Definition ack_body (n : nat) (i : nat) (acc : SimVec * list event)
  : option (SimVec * list event) :=
  let '(sims, out) := acc in
  s ← sims !! i;
  Some (<[i := set_processing true s]> sims,
        out ++ [zmsg_send [c_str (name s); ACK; fmt_llu (Z.of_nat i);
                           fmt_llu (Z.of_nat n)]]).

Definition hello_warnings (sender : string) (cfg : zconfig) : list event :=
  match cfg_time_delta cfg with
  | Some _ => []
  | None => [WARN (sender +:+ " config does not contain 'time_delta'");
             WARN (sender +:+ " time_delta defaulting to 1s")]
  end.

Definition hello_subscriptions (cfg : zconfig) : gset string :=
  match cfg_values cfg with
  | Some topics => list_to_set topics
  | None => ∅
  end.

(** The record that HELLO pushes. *)
Definition hello_state (sender : string) (cfg : zconfig) : SimulatorState :=
  Sim sender 0 (default default_time_delta (cfg_time_delta cfg)) 0
      false false (hello_subscriptions cfg).

(** [n_processing = n_sims] converts an [unsigned int] that came from
    a positive [int], so the value is kept. *)
Definition on_hello (st : Broker) (sender : string) (rest : list zframe)
  : outcome :=
  if decide (is_Some (name_to_index st !! sender)) then
    broker_die (simulators st)
  else
    match rest with
    | [] => broker_die (simulators st)
    | f :: _ =>
        match config f with
        | None => broker_die (simulators st)
        | Some cfg =>
            let warns := hello_warnings sender cfg in
            let index' := <[sender := length (simulators st)]>
                            (name_to_index st) in
            let sims' := simulators st ++ [hello_state sender cfg] in
            if decide (length sims' = n_sims st) then
              match for_loop (n_sims st) (ack_body (n_sims st))
                             (sims', warns) with
              | None => Undefined
              | Some (sims, out) =>
                  Continue (Mk (n_sims st) (byes st) (Z.of_nat (n_sims st))
                               sims index' (time_granted st) (do_trace st))
                           out
              end
            else
              Continue (Mk (n_sims st) (byes st) (n_processing st) sims'
                           index' (time_granted st) (do_trace st))
                       warns
        end
    end.

(** ** TIME_REQUEST and BYE (lines 312-424) *)

(** [*min_element (v.begin(), v.end())]; on an empty vector it
    dereferences [end()]. *)
Definition min_element (l : list time) : option time :=
  match l with
  | [] => None
  | x :: l' => Some (foldl Z.min x l')
  end.

(** Lines 385-392: the actionable time of one record. *)
Definition actionable (s : SimulatorState) : time :=
  if messages_pending s
  then add (time_last_processed s) (time_delta s)
  else time_requested s.

(** Lines 383-393: the vector [time_actionable]. *)
Definition fill_time_actionable (n : nat) (sims : SimVec)
  : option (list time) :=
  for_loop n (λ i ta, s ← sims !! i; Some (ta ++ [actionable s])) [].

(** Lines 419-420: the fast-forward of a record that is not granted. *)
Definition fast_forward (granted : time) (s : SimulatorState)
  : option SimulatorState :=
  jump ← div (sub granted (time_last_processed s)) (time_delta s);
  Some (set_time_last_processed
          (add (time_last_processed s) (mul (time_delta s) jump)) s).

(** Lines 411-412: the record of a granted simulator. *)
Definition grant (s : SimulatorState) : SimulatorState :=
  set_messages_pending false (set_processing true s).

(** Lines 406-422: the body of the loop that grants or fast-forwards. *)
Definition grant_body (granted : time) (time_actionable : list time)
    (i : nat) (acc : SimVec * Z * list event)
  : option (SimVec * Z * list event) :=
  let '(sims, n_proc, out) := acc in
  a ← time_actionable !! i;
  if decide (granted = a) then
    if decide (n_proc = INT_MAX) then None
    else
      s ← sims !! i;
      Some (<[i := grant s]> sims, n_proc + 1,
            out ++ [zmsg_send [c_str (name s); TIME_REQUEST;
                               fmt_llu granted]])
  else
    s ← sims !! i;
    s' ← fast_forward granted s;
    Some (<[i := s']> sims, n_proc, out).

(** Lines 382-423, entered when [n_processing] is 0. *)
Definition grant_round (st : Broker) (out : list event) : outcome :=
  match fill_time_actionable (n_sims st) (simulators st) with
  | None => Undefined
  | Some time_actionable =>
      match min_element time_actionable with
      | None => Undefined
      | Some granted =>
          match for_loop (n_sims st) (grant_body granted time_actionable)
                         (simulators st, n_processing st, out) with
          | None => Undefined
          | Some (sims, n_proc, out') =>
              Continue (Mk (n_sims st) (byes st) n_proc sims
                           (name_to_index st) granted (do_trace st))
                       out'
          end
      end
  end.

(** Lines 375-379 on [simulators[index]].  [sims] and [byes'] are the
    vector and the set as the BYE or TIME_REQUEST branch left them. *)
Definition account (st : Broker) (index : nat) (sims : SimVec)
    (byes' : gset string) (out : list event) : outcome :=
  match update_sim index
          (λ s, set_processing false
                  (set_time_last_processed (time_granted st) s)) sims with
  | None => Undefined
  | Some sims' =>
      if decide (n_processing st = INT_MIN) then Undefined
      else
        Continue (Mk (n_sims st) byes' (n_processing st - 1) sims'
                     (name_to_index st) (time_granted st) (do_trace st))
                 out
  end.

Definition bye_body (sims : SimVec) (i : nat) (out : list event)
  : option (list event) :=
  s ← sims !! i; Some (out ++ [zmsg_send [c_str (name s); BYE]]).

Definition bye_warnings (st : Broker) (sender : string) : list event :=
  if decide (sender ∈ byes st)
  then [WARN ("duplicate BYE from '" +:+ sender +:+ "'")]
  else [].

(** Lines 314-379: the handler up to the test of the counter.
    [Continue] here means that line 381 is reached. *)
Definition accounting (st : Broker) (sender message_type : string)
    (rest : list zframe) : outcome :=
  match name_to_index st !! sender with
  | None => broker_die (simulators st)
  | Some index =>
      if decide (BYE = message_type) then
        let warns := bye_warnings st sender in
        let byes' := {[sender]} ∪ byes st in
        if decide (size byes' = n_sims st) then
          match for_loop (n_sims st) (bye_body (simulators st)) warns with
          | None => Undefined
          | Some out => Return0 out
          end
        else
          match update_sim index (set_time_requested ULLONG_MAX)
                           (simulators st) with
          | None => Undefined
          | Some sims => account st index sims byes' warns
          end
      else if decide (TIME_REQUEST = message_type) then
        match rest with
        | [] => broker_die (simulators st)
        | f :: _ =>
            (* [None]: line 372 reads the local of line 315, which
               line 368 has not written *)
            match read_ull (data f) with
            | None => Undefined
            | Some time_requested =>
                match update_sim index (set_time_requested time_requested)
                                 (simulators st) with
                | None => Undefined
                | Some sims => account st index sims (byes st) []
                end
            end
        end
      else account st index (simulators st) (byes st) []
  end.

(** Lines 312-424: the accounting, then the round if all are done. *)
Definition on_time_request_or_bye (st : Broker) (sender message_type : string)
    (rest : list zframe) : outcome :=
  match accounting st sender message_type rest with
  | Continue mid out =>
      if decide (0 = n_processing mid) then grant_round mid out
      else Continue mid out
  | o => o
  end.

(** ** PUBLISH (lines 425-485) *)

(** The body of the fan-out loop; [forwarded] is the received message
    without its first frame, which is replaced by the destination. *)
Definition publish_body (topic : string) (forwarded : list string)
    (i : nat) (acc : SimVec * list event) : option (SimVec * list event) :=
  let '(sims, out) := acc in
  s ← sims !! i;
  if decide (topic ∈ subscription_values s) then
    Some (<[i := set_messages_pending true s]> sims,
          out ++ [zmsg_send (name s :: forwarded)])
  else Some (sims, out).

Definition fan_out (st : Broker) (topic : string) (forwarded : list string)
    (out : list event) : outcome :=
  match for_loop (n_sims st) (publish_body topic forwarded)
                 (simulators st, out) with
  | None => Undefined
  | Some (sims, out') =>
      Continue (Mk (n_sims st) (byes st) (n_processing st) sims
                   (name_to_index st) (time_granted st) (do_trace st))
               out'
  end.

(** [tail] is the message after the sender: the tag, then [rest]. *)
Definition on_publish (st : Broker) (sender : string) (tail rest : list zframe)
  : outcome :=
  match name_to_index st !! sender with
  | None => broker_die (simulators st)
  | Some _ =>
      match rest with
      | [] => broker_die (simulators st)
      | ftopic :: rest' =>
          let topic := data ftopic in
          if do_trace st then
            match rest' with
            | [] => broker_die (simulators st)
            | fvalue :: _ =>
                fan_out st topic (data <$> tail)
                        [trace_line (time_granted st) topic (data fvalue)]
            end
          else fan_out st topic (data <$> tail) []
      end
  end.

(** ** DIE and TIME_DELTA (lines 486-526) *)

Definition on_die (st : Broker) (sender : string) : outcome :=
  match name_to_index st !! sender with
  | None => broker_die (simulators st)
  | Some _ => broker_die (simulators st)
  end.

Definition on_time_delta (st : Broker) (sender : string) (rest : list zframe)
  : outcome :=
  match name_to_index st !! sender with
  | None => broker_die (simulators st)
  | Some index =>
      match rest with
      | [] => broker_die (simulators st)
      | f :: _ =>
          (* [None]: line 525 reads the local of line 499, which
             line 521 has not written *)
          match read_ull (data f) with
          | None => Undefined
          | Some time_delta =>
              match update_sim index (set_time_delta time_delta)
                               (simulators st) with
              | None => Undefined
              | Some sims =>
                  Continue (Mk (n_sims st) (byes st) (n_processing st) sims
                               (name_to_index st) (time_granted st)
                               (do_trace st))
                           []
              end
          end
      end
  end.

(** ** One iteration of the event loop (lines 172-534) *)

Definition step (st : Broker) (msg : list zframe) : outcome :=
  match msg with
  | [] => broker_die (simulators st)            (* message missing sender *)
  | [_] => broker_die (simulators st)           (* missing type identifier *)
  | fsender :: ((ftype :: rest) as tail) =>
      let sender := data fsender in
      let message_type := data ftype in
      if decide (HELLO = message_type) then on_hello st sender rest
      else if decide (TIME_REQUEST = message_type ∨ BYE = message_type) then
        on_time_request_or_bye st sender message_type rest
      else if decide (PUBLISH = message_type) then
        on_publish st sender tail rest
      else if decide (DIE = message_type) then on_die st sender
      else if decide (TIME_DELTA = message_type) then
        on_time_delta st sender rest
      else broker_die (simulators st)
  end.

(** A run of the loop over a sequence of received messages: the events
    of all iterations, and how the run stands at the end. *)
Inductive status :=
| Polling (st : Broker)
| Exited0
| ExitedFailure
| UndefinedBehaviour.

Fixpoint run (st : Broker) (msgs : list (list zframe))
  : status * list event :=
  match msgs with
  | [] => (Polling st, [])
  | msg :: msgs' =>
      match step st msg with
      | Continue st' out =>
          let '(s, out') := run st' msgs' in (s, out ++ out')
      | Return0 out => (Exited0, out)
      | Die out => (ExitedFailure, out)
      | Undefined => (UndefinedBehaviour, [])
      end
  end.

(** ** Vocabulary of the statements *)

(** [m] is the least element of [l]. *)
Definition is_minimum (m : time) (l : list time) : Prop :=
  m ∈ l ∧ Forall (λ x, m <= x) l.

(** The running phase as the data model describes it: registration has
    closed with exactly [n_sims] records, [n_sims] is the positive [int]
    of the command line, and every [time_delta] is nonzero. *)
Definition running (st : Broker) : Prop :=
  length (simulators st) = n_sims st
  ∧ 0 < Z.of_nat (n_sims st) <= INT_MAX
  ∧ Forall (λ r, time_delta r ≠ 0) (simulators st).

(** What a round at time [granted] makes of one record: granted when its
    actionable time is [granted], fast-forwarded otherwise. *)
Definition round_sim (granted : time) (r : SimulatorState) : SimulatorState :=
  if decide (granted = actionable r) then grant r
  else set_time_last_processed
         (add (time_last_processed r)
              (mul (time_delta r)
                   (sub granted (time_last_processed r) / time_delta r))) r.

Definition grant_message (granted : time) (r : SimulatorState) : event :=
  zmsg_send [c_str (name r); TIME_REQUEST; fmt_llu granted].

Definition granted_sims (granted : time) (sims : SimVec) : SimVec :=
  filter (λ r, granted = actionable r) sims.

(** What a PUBLISH of [topic] makes of one record. *)
Definition deliver (topic : string) (r : SimulatorState) : SimulatorState :=
  if decide (topic ∈ subscription_values r)
  then set_messages_pending true r else r.

Definition subscribers (topic : string) (sims : SimVec) : SimVec :=
  filter (λ r, topic ∈ subscription_values r) sims.

Definition with_simulators (st : Broker) (sims : SimVec) : Broker :=
  Mk (n_sims st) (byes st) (n_processing st) sims (name_to_index st)
     (time_granted st) (do_trace st).

(** The messages the broker sends to the simulator of record [r]: the
    broadcasts pass [name.c_str()], the forwarded PUBLISH is given the
    name with its size (lines 472-474). *)
Definition ack_message (total : nat) (i : nat) (r : SimulatorState) : event :=
  zmsg_send [c_str (name r); ACK; fmt_llu (Z.of_nat i);
             fmt_llu (Z.of_nat total)].

Definition bye_message (r : SimulatorState) : event :=
  zmsg_send [c_str (name r); BYE].

Definition forward_message (forwarded : list string) (r : SimulatorState)
  : event :=
  zmsg_send (name r :: forwarded).

(** Every record of [sims] is still at its index in [sims'], with its
    name and its subscription set. *)
Definition keeps_subscriptions (sims sims' : SimVec) : Prop :=
  ∀ i r, sims !! i = Some r →
    ∃ r', sims' !! i = Some r'
          ∧ name r' = name r
          ∧ subscription_values r' = subscription_values r.

(** A message that lacks a frame its handler reads, whose HELLO payload
    does not load as a configuration, or whose type frame is none of the
    tags. *)
Definition malformed (st : Broker) (msg : list zframe) : Prop :=
  match msg with
  | [] | [_] => True
  | _ :: ftype :: rest =>
      (data ftype = HELLO
       ∧ match rest with [] => True | f :: _ => config f = None end)
      ∨ (data ftype = TIME_REQUEST ∧ rest = [])
      ∨ (data ftype = TIME_DELTA ∧ rest = [])
      ∨ (data ftype = PUBLISH
         ∧ (rest = [] ∨ (do_trace st = true ∧ length rest = 1%nat)))
      ∨ data ftype ∉ [HELLO; TIME_REQUEST; BYE; PUBLISH; DIE; TIME_DELTA]
  end.

(** The line a PUBLISH adds to the trace file; [rest] are the frames
    after the topic. *)
Definition publish_trace (st : Broker) (topic : string) (rest : list zframe)
  : list event :=
  match rest with
  | fvalue :: _ =>
      if do_trace st
      then [trace_line (time_granted st) topic (data fvalue)] else []
  | [] => []
  end.

(** The vector when the first [n] records have been through [f]. *)
Definition done_todo {A} (f : A → A) (n : nat) (l : list A) : list A :=
  (f <$> take n l) ++ drop n l.

(** *** Simulators that keep to the protocol *)

(** The simulator [sender] holds a grant: its record is marked
    processing. *)
Definition holds_grant (st : Broker) (sender : string) : Prop :=
  ∃ index r,
    name_to_index st !! sender = Some index
    ∧ simulators st !! index = Some r
    ∧ processing r = true.

(** The messages of simulators that keep to the protocol: HELLO comes
    before registration closes and brings a positive delta; a simulator
    speaks only once registration has closed, answers (TIME_REQUEST, BYE)
    or changes its delta only while it holds a grant, with a time frame
    that is not blank, asks for no time before the granted one and for
    no delta of zero. *)
Inductive conforming (st : Broker) : list zframe → Prop :=
| conforming_hello fsender ftype f rest cfg :
    data ftype = HELLO →
    (length (simulators st) < n_sims st)%nat →
    config f = Some cfg →
    0 < default default_time_delta (cfg_time_delta cfg) →
    conforming st (fsender :: ftype :: f :: rest)
| conforming_time_request fsender ftype f rest t :
    data ftype = TIME_REQUEST →
    holds_grant st (data fsender) →
    read_ull (data f) = Some t →
    time_granted st <= t →
    conforming st (fsender :: ftype :: f :: rest)
| conforming_bye fsender ftype rest :
    data ftype = BYE →
    holds_grant st (data fsender) →
    conforming st (fsender :: ftype :: rest)
| conforming_time_delta fsender ftype f rest d :
    data ftype = TIME_DELTA →
    holds_grant st (data fsender) →
    read_ull (data f) = Some d →
    0 < d →
    conforming st (fsender :: ftype :: f :: rest)
| conforming_publish fsender ftype rest :
    data ftype = PUBLISH →
    length (simulators st) = n_sims st →
    conforming st (fsender :: ftype :: rest).

(** No time the broker may have to compute leaves 64 bits. *)
Definition bounded (st : Broker) : Prop :=
  0 <= time_granted st <= ULLONG_MAX
  ∧ Forall (λ r, time_granted st + time_delta r <= ULLONG_MAX)
           (simulators st).

(** Loop boundaries reached through conforming messages, the times
    staying within bounds. *)
Inductive conforming_run : Broker → Broker → Prop :=
| conforming_run_refl st : conforming_run st st
| conforming_run_step st msg st' out st'' :
    conforming st msg →
    step st msg = Continue st' out →
    bounded st' →
    conforming_run st' st'' →
    conforming_run st st''.

(** The number of records marked processing. *)
Definition count_processing (sims : SimVec) : Z :=
  Z.of_nat (length (filter (λ r, processing r = true) sims)).

(** A record at a loop boundary of a conforming run, [granted] being
    the granted time. *)
Definition record_ok (granted : time) (r : SimulatorState) : Prop :=
  0 < time_delta r
  ∧ 0 <= time_last_processed r <= granted
  ∧ (processing r = false →
     granted < time_last_processed r + time_delta r
     ∧ (messages_pending r = false → granted <= time_requested r)).

(** The variables at a loop boundary of a conforming run. *)
Record consistent (st : Broker) : Prop := Consistent {
  consistent_size : (length (simulators st) ≤ n_sims st)%nat;
  consistent_n_sims : 0 < Z.of_nat (n_sims st) <= INT_MAX;
  consistent_registration :
    (length (simulators st) < n_sims st)%nat →
    n_processing st = 0 ∧ time_granted st = 0;
  consistent_count : n_processing st = count_processing (simulators st);
  consistent_bounded : bounded st;
  consistent_records : Forall (record_ok (time_granted st)) (simulators st)
}.

(** The record of a simulator that has answered with the time [t] when
    the granted time was [granted] (lines 356, 372, 376, 377). *)
Definition responded (granted t : time) (r : SimulatorState)
  : SimulatorState :=
  Sim (name r) t (time_delta r) granted false (messages_pending r)
      (subscription_values r).

(** *** Simulators that keep to their ticks *)

(** [msg] keeps to the ticks: it is no TIME_DELTA, and when it is a
    TIME_REQUEST the time it asks for is a multiple of the [time_delta]
    of the sender's record. *)
Definition on_tick (st : Broker) (msg : list zframe) : Prop :=
  ∀ fsender ftype rest,
    msg = fsender :: ftype :: rest →
    data ftype ≠ TIME_DELTA
    ∧ (data ftype = TIME_REQUEST →
       ∀ f rest' index r t,
         rest = f :: rest' →
         name_to_index st !! data fsender = Some index →
         simulators st !! index = Some r →
         read_ull (data f) = Some t →
         (time_delta r | t)).

(** Loop boundaries reached through conforming messages that keep to the
    ticks, the times staying within bounds. *)
Inductive tick_run : Broker → Broker → Prop :=
| tick_run_refl st : tick_run st st
| tick_run_step st msg st' out st'' :
    conforming st msg →
    on_tick st msg →
    step st msg = Continue st' out →
    bounded st' →
    tick_run st' st'' →
    tick_run st st''.

(** A record at a loop boundary of such a run, [granted] being the
    granted time: its times are multiples of its delta (or the
    [ULLONG_MAX] of a BYE), and so is the granted time while it holds a
    grant. *)
Definition tick_ok (granted : time) (r : SimulatorState) : Prop :=
  (time_delta r | time_last_processed r)
  ∧ ((time_delta r | time_requested r) ∨ time_requested r = ULLONG_MAX)
  ∧ (processing r = true → (time_delta r | granted)).

(** ** Concrete messages and states *)

Module Examples.

Definition hello (sender : string) (delta : time) (topics : list string)
  : list zframe :=
  [frame sender; frame HELLO;
   Zframe "config" (Some (Zconfig (Some delta) (Some topics)))].

Definition time_request (sender t : string) : list zframe :=
  [frame sender; frame TIME_REQUEST; frame t].

Definition time_delta_msg (sender t : string) : list zframe :=
  [frame sender; frame TIME_DELTA; frame t].

Definition bye (sender : string) : list zframe :=
  [frame sender; frame BYE].

Definition publish (sender topic value : string) : list zframe :=
  [frame sender; frame PUBLISH; frame topic; frame value].

(** The variables after the messages [msgs], from the start with [n]
    expected simulators and no tracing. *)
Definition after (n : nat) (msgs : list (list zframe)) : Broker :=
  match run (init n false) msgs with
  | (Polling st, _) => st
  | _ => init n false
  end.

(** Two simulators, A subscribed to topic x, registration just closed. *)
Definition two_sims : Broker :=
  after 2 [hello "A" 1 ["x"]; hello "B" 2 []].

(** The same when A has answered the first grant. *)
Definition two_sims_a_done : Broker :=
  after 2 [hello "A" 1 ["x"]; hello "B" 2 []; time_request "A" "100"].

(** The state at line 381 when B answers too. *)
Definition two_sims_both_done : Broker :=
  match accounting two_sims_a_done "B" TIME_REQUEST [frame "100"] with
  | Continue mid _ => mid
  | _ => two_sims_a_done
  end.

(** One simulator of delta 2: registered, then granted the time 3. *)
Definition one_sim : Broker := after 1 [hello "A" 2 []].

Definition one_sim_at_3 : Broker :=
  after 1 [hello "A" 2 []; time_request "A" "3"].

(** Two simulators of deltas 3 and 2; A has answered the first grant
    asking for the time 99. *)
Definition uneven_a_done : Broker :=
  after 2 [hello "A" 3 []; hello "B" 2 []; time_request "A" "99"].

(** The state at line 381 when B answers too, asking for the time 50. *)
Definition uneven_both_done : Broker :=
  match accounting uneven_a_done "B" TIME_REQUEST [frame "50"] with
  | Continue mid _ => mid
  | _ => uneven_a_done
  end.

(** After the round that this answer starts, and after the next one,
    when B has asked for the time 52. *)
Definition uneven_round : Broker :=
  after 2 [hello "A" 3 []; hello "B" 2 []; time_request "A" "99";
           time_request "B" "50"].

Definition uneven_two_rounds : Broker :=
  after 2 [hello "A" 3 []; hello "B" 2 []; time_request "A" "99";
           time_request "B" "50"; time_request "B" "52"].

(** Three simulators, A has said BYE once. *)
Definition three_sims_a_bye : Broker :=
  after 3 [hello "A" 1 []; hello "B" 1 []; hello "C" 1 []; bye "A"].

End Examples.

(** ** Beyond one iteration: the start of [main] and every run *)

(** [istringstream >> int], as line 108 uses it on an [int] that holds 0:
    white space, an optional sign, decimal digits.  Without a digit the
    value is 0; a number that does not fit is [INT_MAX] or [INT_MIN]
    (C++11). *)
Definition read_int (s : string) : Z :=
  let s1 := skipws s in
  let '(negative, s2) :=
    match s1 with
    | String "-" s' => (true, s')
    | String "+" s' => (false, s')
    | _ => (false, s1)
    end in
  match read_digits s2 None with
  | None => 0
  | Some v =>
      if negative
      then (if bool_decide (- v < INT_MIN) then INT_MIN else - v)
      else (if bool_decide (INT_MAX < v) then INT_MAX else v)
  end.

(** What [main] finds around it before the loop: the command line
    ([argc] is the length of [argv]), two environment variables, and
    whether the trace file opens and the socket is made and resolves. *)
Record Environment := Env {
  argv : list string;
  FNCS_TRACE : option string;
  FNCS_BROKER : option string;
  trace_opens : bool;
  socket_made : bool;
  socket_resolves : bool
}.

(** Lines 122-131: tracing is asked for by the first character. *)
Definition wants_trace (value : option string) : bool :=
  match value with
  | Some (String c _) =>
      bool_decide (c = "Y"%char) || bool_decide (c = "y"%char)
      || bool_decide (c = "T"%char) || bool_decide (c = "t"%char)
  | _ => false
  end.

(** How [main] stands when lines 96-158 are done.  With a third
    argument the broker paces the grants on the wall clock ([paced]); the
    interval is read by [fncs::parse_time], which is not in the source at
    hand, and the loop of a paced broker is outside [step]. *)
Inductive startup_result :=
| ExitFailure
| LoopEntered (st : Broker) (endpoint : string) (paced : bool).

Definition startup (env : Environment) : startup_result :=
  let argc := length (argv env) in
  if decide (3 < argc)%nat then ExitFailure
  else if decide (argc < 2)%nat then ExitFailure
  else
    let n_sims_signed := read_int (default "" (argv env !! 1%nat)) in
    if decide (n_sims_signed <= 0) then ExitFailure
    else
      let do_trace := wants_trace (FNCS_TRACE env) in
      if do_trace && negb (trace_opens env) then ExitFailure
      else if negb (socket_made env) then ExitFailure
      else if negb (socket_resolves env) then ExitFailure
      else LoopEntered (init (Z.to_nat n_sims_signed) do_trace)
                       (default "tcp://*:5570" (FNCS_BROKER env))
                       (bool_decide (argc = 3%nat)).

(** The loop boundaries that the loop reaches from its start, whatever
    the messages. *)
Inductive reachable (n : nat) (tracing : bool) : Broker → Prop :=
| reachable_init : reachable n tracing (init n tracing)
| reachable_step st msg st' out :
    reachable n tracing st →
    step st msg = Continue st' out →
    reachable n tracing st'.

(** The names of the records, in the order of the vector. *)
Definition names (st : Broker) : list string := name <$> simulators st.



(** What every reachable loop boundary keeps of the registry, for [n]
    expected simulators: the two constants, the index as the inverse of
    the vector of names, and the simulators that have said BYE among the
    registered ones, fewer than [n]. *)
Record registry_ok (n : nat) (tracing : bool) (st : Broker) : Prop :=
  RegistryOk {
  registry_n_sims : n_sims st = n;
  registry_do_trace : do_trace st = tracing;
  registry_size : size (name_to_index st) = length (simulators st);
  registry_index :
    ∀ nm i, name_to_index st !! nm = Some i ↔ names st !! i = Some nm;
  registry_byes : byes st ⊆ dom (name_to_index st);
  registry_byes_open : (0 < n)%nat → (size (byes st) < n)%nat
}.

(** ** The loops *)

Section Loops.
Context {A : Type}.
Implicit Types (body : nat → A → option A) (a : A).

Lemma for_loop_0 body a : for_loop 0 body a = Some a.
Proof. reflexivity. Qed.

Lemma for_loop_S n body a :
  for_loop (S n) body a = for_loop n body a ≫= body n.
Proof. unfold for_loop. by rewrite seq_S, foldl_app. Qed.

(** A loop invariant indexed by the number of iterations done. *)
Lemma for_loop_invariant (P : nat → A → Prop) n body a a' :
  P 0%nat a →
  (∀ i x x', (i < n)%nat → P i x → body i x = Some x' → P (S i) x') →
  for_loop n body a = Some a' → P n a'.
Proof.
  intros H0 Hstep. revert a'.
  induction n as [|n IH]; intros a'.
  - rewrite for_loop_0. by intros [= <-].
  - rewrite for_loop_S.
    destruct (for_loop n body a) as [x|] eqn:Hn; [|done].
    simpl. intros Hb. apply (Hstep n x); [lia| |done].
    apply IH; [|done]. intros i y y' Hi. apply Hstep. lia.
Qed.
End Loops.

Section DoneTodo.
Context {A : Type} (f : A → A).
Implicit Types (l : list A).

Lemma done_todo_0 l : done_todo f 0 l = l.
Proof. unfold done_todo. by rewrite take_0, drop_0. Qed.

Lemma done_todo_all n l : (length l ≤ n)%nat → done_todo f n l = f <$> l.
Proof.
  intros Hn. unfold done_todo.
  rewrite take_ge, drop_ge by lia. by rewrite app_nil_r.
Qed.

Lemma done_todo_lookup n l : done_todo f n l !! n = l !! n.
Proof.
  unfold done_todo.
  destruct (decide (n < length l)%nat) as [Hlt|Hge].
  - rewrite lookup_app_r; rewrite length_fmap, length_take; [|lia].
    rewrite lookup_drop. f_equal. lia.
  - rewrite take_ge, drop_ge, app_nil_r by lia.
    rewrite list_lookup_fmap, !lookup_ge_None_2; [done|lia].
Qed.

Lemma done_todo_S n l x :
  l !! n = Some x →
  <[n := f x]> (done_todo f n l) = done_todo f (S n) l.
Proof.
  intros Hx. pose proof (lookup_lt_Some _ _ _ Hx) as Hlt.
  unfold done_todo.
  rewrite insert_app_r_alt; rewrite length_fmap, length_take; [|lia].
  replace (n - n `min` length l)%nat with 0%nat by lia.
  rewrite (drop_S l x n Hx). simpl.
  rewrite (take_S_r l n x Hx), fmap_app. simpl.
  by rewrite <- app_assoc.
Qed.

Lemma done_todo_lookup_lt n l i :
  (i < n)%nat → done_todo f n l !! i = f <$> l !! i.
Proof.
  intros Hi. unfold done_todo.
  destruct (decide (i < length l)%nat) as [Hlt|Hge].
  - rewrite lookup_app_l by (rewrite length_fmap, length_take; lia).
    by rewrite list_lookup_fmap, lookup_take_lt.
  - rewrite take_ge, drop_ge, app_nil_r by lia.
    by rewrite list_lookup_fmap.
Qed.

Lemma done_todo_lookup_ge n l i :
  (n ≤ i)%nat → done_todo f n l !! i = l !! i.
Proof.
  intros Hi. unfold done_todo.
  destruct (decide (n ≤ length l)%nat) as [Hle|Hgt].
  - rewrite lookup_app_r; rewrite length_fmap, length_take_le; [|lia..].
    rewrite lookup_drop. f_equal. lia.
  - rewrite take_ge, drop_ge, app_nil_r by lia.
    rewrite list_lookup_fmap, !lookup_ge_None_2; [done|lia].
Qed.

Lemma length_done_todo n l : length (done_todo f n l) = length l.
Proof.
  unfold done_todo. by rewrite length_app, length_fmap, <- length_app,
    take_drop.
Qed.

Lemma take_S_filter (P : A → Prop) `{∀ x, Decision (P x)} n l x :
  l !! n = Some x →
  filter P (take (S n) l)
  = filter P (take n l) ++ (if decide (P x) then [x] else []).
Proof.
  intros Hx. rewrite (take_S_r l n x Hx), filter_app. by f_equal.
Qed.
End DoneTodo.

(** The loops of the handlers, when the vector holds at least the [n]
    records they index. *)
Section HandlerLoops.
Implicit Types (sims : SimVec) (out : list event).

Lemma ack_loop total n sims out :
  (n ≤ length sims)%nat →
  for_loop n (ack_body total) (sims, out)
  = Some (done_todo (set_processing true) n sims,
          out ++ imap (ack_message total) (take n sims)).
Proof.
  induction n as [|n IH]; intros Hn.
  - by rewrite for_loop_0, done_todo_0, take_0, app_nil_r.
  - rewrite for_loop_S, IH by lia. simpl.
    rewrite done_todo_lookup.
    destruct (lookup_lt_is_Some_2 sims n) as [r Hr]; [lia|].
    rewrite Hr. simpl. rewrite (done_todo_S _ _ _ _ Hr).
    rewrite (take_S_r _ _ _ Hr), imap_app, app_assoc. simpl.
    rewrite length_take, Nat.min_l, Nat.add_0_r by lia. done.
Qed.

Lemma bye_loop n sims out :
  (n ≤ length sims)%nat →
  for_loop n (bye_body sims) out
  = Some (out ++ (bye_message <$> take n sims)).
Proof.
  induction n as [|n IH]; intros Hn.
  - by rewrite for_loop_0, take_0, app_nil_r.
  - rewrite for_loop_S, IH by lia. simpl. unfold bye_body.
    destruct (lookup_lt_is_Some_2 sims n) as [r Hr]; [lia|].
    rewrite Hr. simpl.
    by rewrite (take_S_r _ _ _ Hr), fmap_app, app_assoc.
Qed.

Lemma publish_loop topic forwarded n sims out :
  (n ≤ length sims)%nat →
  for_loop n (publish_body topic forwarded) (sims, out)
  = Some (done_todo (deliver topic) n sims,
          out ++ (forward_message forwarded
                    <$> subscribers topic (take n sims))).
Proof.
  induction n as [|n IH]; intros Hn.
  - by rewrite for_loop_0, done_todo_0, take_0, app_nil_r.
  - rewrite for_loop_S, IH by lia. simpl.
    rewrite done_todo_lookup.
    destruct (lookup_lt_is_Some_2 sims n) as [r Hr]; [lia|].
    rewrite Hr. simpl. unfold subscribers.
    rewrite (take_S_filter _ _ _ _ Hr), fmap_app, app_assoc.
    rewrite <- (done_todo_S _ _ _ _ Hr).
    assert (deliver topic r
            = if decide (topic ∈ subscription_values r)
              then set_messages_pending true r else r) as -> by done.
    destruct (decide (topic ∈ subscription_values r)); simpl.
    + done.
    + rewrite app_nil_r, list_insert_id; [done|].
      by rewrite done_todo_lookup.
Qed.

Lemma fill_time_actionable_take n sims :
  (n ≤ length sims)%nat →
  fill_time_actionable n sims = Some (actionable <$> take n sims).
Proof.
  unfold fill_time_actionable.
  induction n as [|n IH]; intros Hn.
  - by rewrite for_loop_0, take_0.
  - rewrite for_loop_S, IH by lia. simpl.
    destruct (lookup_lt_is_Some_2 sims n) as [r Hr]; [lia|].
    rewrite Hr. simpl. by rewrite (take_S_r _ _ _ Hr), fmap_app.
Qed.

Lemma fast_forward_round_sim granted r :
  time_delta r ≠ 0 → granted ≠ actionable r →
  fast_forward granted r = Some (round_sim granted r).
Proof.
  intros Hd Hg. unfold fast_forward, round_sim, div.
  rewrite !decide_False by done. done.
Qed.

Lemma grant_loop granted total n sims n_proc out :
  (n ≤ total)%nat → (total ≤ length sims)%nat →
  Forall (λ r, time_delta r ≠ 0) (take total sims) →
  n_proc + Z.of_nat n <= INT_MAX →
  for_loop n (grant_body granted (actionable <$> take total sims))
           (sims, n_proc, out)
  = Some (done_todo (round_sim granted) n sims,
          n_proc + Z.of_nat (length (granted_sims granted (take n sims))),
          out ++ (grant_message granted
                    <$> granted_sims granted (take n sims))).
Proof.
  intros Hn Htotal Hd. induction n as [|n IH]; intros Hmax.
  - rewrite for_loop_0, done_todo_0, take_0, app_nil_r. simpl.
    by rewrite Z.add_0_r.
  - rewrite for_loop_S, IH by lia. simpl.
    destruct (lookup_lt_is_Some_2 sims n) as [r Hr]; [lia|].
    assert (take total sims !! n = Some r) as Hr'
      by (by rewrite lookup_take_lt by lia).
    rewrite list_lookup_fmap, Hr'. simpl.
    rewrite done_todo_lookup, Hr. simpl. unfold granted_sims.
    rewrite (take_S_filter _ _ _ _ Hr), fmap_app, app_assoc, length_app.
    rewrite <- (done_todo_S _ _ _ _ Hr).
    assert (Z.of_nat (length (filter (λ r, granted = actionable r)
                                     (take n sims))) <= Z.of_nat n) as Hlen.
    { pose proof (length_filter (λ r, granted = actionable r) (take n sims)).
      rewrite length_take in *. lia. }
    destruct (decide (granted = actionable r)) as [Hg|Hg]; simpl.
    + rewrite decide_False by lia. simpl.
      unfold round_sim at 2. rewrite decide_True by done.
      apply f_equal, f_equal2; [apply f_equal2; [done|lia]|done].
    + rewrite fast_forward_round_sim;
        [|exact (Forall_lookup_1 _ _ _ _ Hd Hr')|done].
      simpl. rewrite app_nil_r.
      apply f_equal, f_equal2; [apply f_equal2; [done|lia]|done].
Qed.
End HandlerLoops.

(** ** The dispatcher *)

Section Dispatch.
Context (st : Broker) (fsender ftype : zframe) (rest : list zframe).

Lemma step_hello :
  data ftype = HELLO →
  step st (fsender :: ftype :: rest) = on_hello st (data fsender) rest.
Proof. intros Htype. unfold step. by rewrite Htype, decide_True. Qed.

Lemma step_answer :
  data ftype = TIME_REQUEST ∨ data ftype = BYE →
  step st (fsender :: ftype :: rest)
  = on_time_request_or_bye st (data fsender) (data ftype) rest.
Proof.
  intros Htype. unfold step.
  rewrite decide_False by (by destruct Htype as [->| ->]).
  by rewrite decide_True by (by destruct Htype as [->| ->]; [left|right]).
Qed.

Lemma step_publish :
  data ftype = PUBLISH →
  step st (fsender :: ftype :: rest)
  = on_publish st (data fsender) (ftype :: rest) rest.
Proof.
  intros Htype. unfold step. rewrite Htype.
  rewrite decide_False by done.
  rewrite decide_False by (intros [?|?]; done).
  by rewrite decide_True.
Qed.

Lemma step_time_delta :
  data ftype = TIME_DELTA →
  step st (fsender :: ftype :: rest) = on_time_delta st (data fsender) rest.
Proof.
  intros Htype. unfold step. rewrite Htype.
  rewrite decide_False by done.
  rewrite decide_False by (intros [?|?]; done).
  rewrite !decide_False by done. by rewrite decide_True.
Qed.

Lemma step_unknown :
  data ftype ∉ [HELLO; TIME_REQUEST; BYE; PUBLISH; DIE; TIME_DELTA] →
  step st (fsender :: ftype :: rest) = broker_die (simulators st).
Proof.
  rewrite !not_elem_of_cons. intros (? & ? & ? & ? & ? & ? & _).
  unfold step. rewrite decide_False by done.
  rewrite decide_False by (intros [?|?]; done).
  by rewrite !decide_False by done.
Qed.
End Dispatch.

(** ** The handlers on the messages they accept *)

Lemma fan_out_running st topic forwarded out :
  length (simulators st) = n_sims st →
  fan_out st topic forwarded out
  = Continue (with_simulators st (deliver topic <$> simulators st))
             (out ++ (forward_message forwarded
                        <$> subscribers topic (simulators st))).
Proof.
  intros Hlen. unfold fan_out. rewrite publish_loop by lia.
  by rewrite done_todo_all, take_ge by lia.
Qed.

Lemma on_hello_admits st sender f rest cfg :
  name_to_index st !! sender = None →
  config f = Some cfg →
  let sims' := simulators st ++ [hello_state sender cfg] in
  on_hello st sender (f :: rest)
  = if decide (length sims' = n_sims st)
    then Continue (Mk (n_sims st) (byes st) (Z.of_nat (n_sims st))
                      (set_processing true <$> sims')
                      (<[sender := length (simulators st)]>
                         (name_to_index st))
                      (time_granted st) (do_trace st))
                  (hello_warnings sender cfg
                   ++ imap (ack_message (n_sims st)) sims')
    else Continue (Mk (n_sims st) (byes st) (n_processing st) sims'
                      (<[sender := length (simulators st)]>
                         (name_to_index st))
                      (time_granted st) (do_trace st))
                  (hello_warnings sender cfg).
Proof.
  intros Hfresh Hcfg sims'. unfold on_hello. rewrite Hfresh, Hcfg.
  rewrite decide_False by (by intros [? ?]). fold sims'.
  destruct (decide (length sims' = n_sims st)) as [Hclose|Hopen]; [|done].
  rewrite ack_loop by lia. by rewrite done_todo_all, take_ge by lia.
Qed.

(** ** PUBLISH *)

Lemma with_simulators_id st : with_simulators st (simulators st) = st.
Proof. by destruct st. Qed.

Lemma deliver_no_subscriber topic (sims : SimVec) :
  subscribers topic sims = [] → deliver topic <$> sims = sims.
Proof.
  unfold subscribers. intros Hnone.
  induction sims as [|r sims IH]; [done|].
  rewrite filter_cons in Hnone. rewrite fmap_cons. unfold deliver at 1.
  destruct (decide (topic ∈ subscription_values r)); [done|].
  by rewrite IH.
Qed.

Lemma fan_out_closed st topic forwarded out :
  (n_sims st ≤ length (simulators st))%nat →
  fan_out st topic forwarded out
  = Continue (with_simulators st
                (done_todo (deliver topic) (n_sims st) (simulators st)))
             (out ++ (forward_message forwarded
                        <$> subscribers topic
                              (take (n_sims st) (simulators st)))).
Proof. intros Hlen. unfold fan_out. by rewrite publish_loop by lia. Qed.

(** C3 (as amended).  Once the vector holds at least [n_sims] records, a
    PUBLISH of a topic by a registered simulator returns to the poll; it
    is forwarded (the sender frame replaced by the name of the
    destination) to exactly those of the first [n_sims] records whose
    subscription set holds the topic, in the order of the vector; these
    records get [messages_pending = true] and nothing else changes: not
    the other fields, not the other records, not the other variables;
    when none of the first [n_sims] records subscribes, nothing is sent
    and the state is unchanged.  A record after the first [n_sims] is
    sent nothing, whatever its subscriptions. *)
Theorem publish_reaches_exactly_the_subscribers
    st (fsender ftype ftopic : zframe) (rest : list zframe) :
  data ftype = PUBLISH →
  is_Some (name_to_index st !! data fsender) →
  (n_sims st ≤ length (simulators st))%nat →
  (do_trace st = true → rest ≠ []) →
  let topic := data ftopic in
  let forwarded := data <$> ftype :: ftopic :: rest in
  let reached :=
    filter (λ r, topic ∈ subscription_values r)
           (take (n_sims st) (simulators st)) in
  ∃ st' out,
    step st (fsender :: ftype :: ftopic :: rest) = Continue st' out
    ∧ out = publish_trace st topic rest
            ++ ((λ r, zmsg_send (name r :: forwarded)) <$> reached)
    ∧ st' = with_simulators st (simulators st')
    ∧ length (simulators st') = length (simulators st)
    ∧ (∀ i r, simulators st !! i = Some r →
         (i < n_sims st)%nat → topic ∈ subscription_values r →
         simulators st' !! i
         = Some (Sim (name r) (time_requested r) (time_delta r)
                     (time_last_processed r) (processing r) true
                     (subscription_values r)))
    ∧ (∀ i r, simulators st !! i = Some r →
         (n_sims st ≤ i)%nat ∨ topic ∉ subscription_values r →
         simulators st' !! i = Some r)
    ∧ (reached = [] → st' = st ∧ out = publish_trace st topic rest).
Proof.
  intros Htype [index Hindex] Hlen Hvalue topic forwarded reached.
  exists (with_simulators st
            (done_todo (deliver topic) (n_sims st) (simulators st))),
         (publish_trace st topic rest
          ++ (forward_message forwarded
                <$> subscribers topic (take (n_sims st) (simulators st)))).
  split.
  { rewrite step_publish by done.
    unfold on_publish, publish_trace. rewrite Hindex.
    destruct (do_trace st) eqn:Htrace.
    - destruct rest as [|fvalue rest]; [by destruct Hvalue|].
      by rewrite fan_out_closed.
    - rewrite fan_out_closed by done. by destruct rest. }
  simpl. split; [|split; [|split; [|split; [|split]]]].
  - reflexivity.
  - reflexivity.
  - apply length_done_todo.
  - intros i r Hr Hi Hsub. rewrite done_todo_lookup_lt, Hr by done.
    simpl. unfold deliver. by rewrite decide_True by done.
  - intros i r Hr [Hi|Hsub].
    + by rewrite done_todo_lookup_ge.
    + destruct (decide (i < n_sims st)%nat).
      * rewrite done_todo_lookup_lt, Hr by done.
        simpl. unfold deliver. by rewrite decide_False by done.
      * rewrite done_todo_lookup_ge by lia. done.
  - intros Hnone. fold topic. unfold subscribers. fold reached.
    rewrite Hnone, app_nil_r. split; [|done].
    unfold done_todo.
    rewrite (deliver_no_subscriber topic (take (n_sims st) (simulators st)))
      by done.
    by rewrite take_drop, with_simulators_id.
Qed.

(** ** Records keep their subscriptions *)

Section Subscriptions.
Implicit Types (sims : SimVec).

Lemma keeps_subscriptions_refl sims : keeps_subscriptions sims sims.
Proof. intros i r Hr. by exists r. Qed.

Lemma keeps_subscriptions_insert sims sims' i r r' :
  keeps_subscriptions sims sims' →
  sims' !! i = Some r →
  name r' = name r →
  subscription_values r' = subscription_values r →
  keeps_subscriptions sims (<[i := r']> sims').
Proof.
  intros Hkeep Hi Hname Hsubs j x Hx.
  destruct (Hkeep j x Hx) as (y & Hy & Hyn & Hys).
  destruct (decide (i = j)) as [->|Hne].
  - exists r'. rewrite list_lookup_insert_eq by exact (lookup_lt_Some _ _ _ Hi).
    split; [done|]. split; congruence.
  - exists y. by rewrite list_lookup_insert_ne.
Qed.

Lemma keeps_subscriptions_update sims sims' sims'' index f :
  keeps_subscriptions sims sims' →
  (∀ r, name (f r) = name r
        ∧ subscription_values (f r) = subscription_values r) →
  update_sim index f sims' = Some sims'' →
  keeps_subscriptions sims sims''.
Proof.
  intros Hkeep Hf. unfold update_sim.
  destruct (sims' !! index) as [r|] eqn:Hr; [|done].
  simpl. intros [= <-].
  by eapply keeps_subscriptions_insert; [| |apply Hf..].
Qed.

Lemma keeps_subscriptions_app sims new :
  keeps_subscriptions sims (sims ++ new).
Proof.
  intros i r Hr. exists r. split; [|done]. by apply lookup_app_l_Some.
Qed.

Lemma ack_loop_keeps total n sims sims0 out sims' out' :
  keeps_subscriptions sims0 sims →
  for_loop n (ack_body total) (sims, out) = Some (sims', out') →
  keeps_subscriptions sims0 sims'.
Proof.
  intros Hkeep.
  apply (for_loop_invariant (λ _ acc, keeps_subscriptions sims0 acc.1));
    [done|].
  intros i [s o] [s' o'] _ Hs. simpl in *.
  destruct (s !! i) as [r|] eqn:Hr; [|done]. simpl. intros [= <- _].
  by eapply keeps_subscriptions_insert.
Qed.

Lemma publish_loop_keeps topic forwarded n sims sims0 out sims' out' :
  keeps_subscriptions sims0 sims →
  for_loop n (publish_body topic forwarded) (sims, out)
  = Some (sims', out') →
  keeps_subscriptions sims0 sims'.
Proof.
  intros Hkeep.
  apply (for_loop_invariant (λ _ acc, keeps_subscriptions sims0 acc.1));
    [done|].
  intros i [s o] [s' o'] _ Hs. simpl in *.
  destruct (s !! i) as [r|] eqn:Hr; [|done]. simpl.
  destruct (decide (topic ∈ subscription_values r)); intros [= <- _];
    [|done].
  by eapply keeps_subscriptions_insert.
Qed.

Lemma grant_loop_keeps granted ta n sims sims0 n_proc out sims' n_proc' out' :
  keeps_subscriptions sims0 sims →
  for_loop n (grant_body granted ta) (sims, n_proc, out)
  = Some (sims', n_proc', out') →
  keeps_subscriptions sims0 sims'.
Proof.
  intros Hkeep.
  apply (for_loop_invariant (λ _ acc, keeps_subscriptions sims0 acc.1.1));
    [done|].
  intros i [[s np] o] [[s' np'] o'] _ Hs. simpl in *.
  destruct (ta !! i) as [a|]; [|done]. simpl.
  destruct (decide (granted = a)).
  - destruct (decide (np = INT_MAX)); [done|].
    destruct (s !! i) as [r|] eqn:Hr; [|done]. simpl. intros [= <- _ _].
    by eapply keeps_subscriptions_insert.
  - destruct (s !! i) as [r|] eqn:Hr; [|done]. simpl.
    unfold fast_forward.
    destruct (div _ _); [|done]. simpl. intros [= <- _ _].
    by eapply keeps_subscriptions_insert.
Qed.

(** One iteration of the loop leaves every record its subscriptions. *)
Lemma step_keeps_subscriptions st msg st' out :
  step st msg = Continue st' out →
  keeps_subscriptions (simulators st) (simulators st').
Proof.
  unfold step, on_hello, on_time_request_or_bye, accounting, account,
    grant_round, on_publish, fan_out, on_die, on_time_delta, broker_die.
  intros Hstep.
  repeat (case_match; simplify_eq/=);
    repeat match goal with
      | |- keeps_subscriptions ?s ?s => apply keeps_subscriptions_refl
      | |- keeps_subscriptions ?s (?s ++ _) => apply keeps_subscriptions_app
      | H : update_sim _ _ ?s = Some ?s' |- keeps_subscriptions _ ?s' =>
          eapply (keeps_subscriptions_update _ s);
            [| |exact H]; [|intros ?; split; reflexivity]
      | H : for_loop _ (ack_body _) _ = Some (?s', _)
        |- keeps_subscriptions _ ?s' =>
          eapply ack_loop_keeps; [|exact H]
      | H : for_loop _ (publish_body _ _) _ = Some (?s', _)
        |- keeps_subscriptions _ ?s' =>
          eapply publish_loop_keeps; [|exact H]
      | H : for_loop _ (grant_body _ _) _ = Some (?s', _, _)
        |- keeps_subscriptions _ ?s' =>
          eapply grant_loop_keeps; [|exact H]
      end.
Qed.
End Subscriptions.

(** C10.  The record that a HELLO appends holds the topics of the
    payload as its subscription set; no iteration of the loop changes the
    subscription set (or the name) of a record that is already in the
    vector; and a TIME_DELTA that returns to the poll replaces the
    [time_delta] of the sender's record by the number read from the
    frame (a frame that is not blank, or the iteration does not return
    to the poll), every other field, every other record and every other
    variable being as before, and sends nothing. *)
Theorem subscriptions_fixed_and_time_delta_frame st msg st' out :
  step st msg = Continue st' out →
  keeps_subscriptions (simulators st) (simulators st')
  ∧ (∀ fsender ftype f rest cfg,
       msg = fsender :: ftype :: f :: rest → data ftype = HELLO →
       config f = Some cfg →
       ∃ r', simulators st' !! length (simulators st) = Some r'
             ∧ subscription_values r' = hello_subscriptions cfg)
  ∧ (∀ fsender ftype rest,
       msg = fsender :: ftype :: rest → data ftype = TIME_DELTA →
       ∃ index r f rest' d,
         name_to_index st !! data fsender = Some index
         ∧ simulators st !! index = Some r
         ∧ rest = f :: rest'
         ∧ read_ull (data f) = Some d
         ∧ st' = with_simulators st
                   (<[index := set_time_delta d r]> (simulators st))
         ∧ out = []).
Proof.
  intros Hstep. split; [by eapply step_keeps_subscriptions|]. split.
  { intros fsender ftype f rest cfg -> Htype Hcfg. revert Hstep.
    rewrite step_hello by done.
    destruct (name_to_index st !! data fsender) as [i|] eqn:Hfresh.
    { unfold on_hello. rewrite Hfresh. by rewrite decide_True by done. }
    rewrite (on_hello_admits _ _ _ _ _ Hfresh Hcfg). simpl.
    destruct (decide (length _ = _)); intros [= <- <-]; simpl;
      rewrite ?list_lookup_fmap, list_lookup_middle by done; by eexists. }
  intros fsender ftype rest -> Htype. revert Hstep.
  rewrite step_time_delta by done.
  unfold on_time_delta, update_sim, broker_die.
  destruct (name_to_index st !! data fsender) as [index|] eqn:Hindex;
    [|done].
  destruct rest as [|f rest']; [done|].
  destruct (read_ull (data f)) as [d|] eqn:Hd; [|done].
  destruct (simulators st !! index) as [r|] eqn:Hr; [|done].
  simpl. intros [= <- <-]. by exists index, r, f, rest', d.
Qed.

(** ** Malformed messages *)

(** C9 (as amended).  A message without sender frame or type frame or
    with an unknown type, a HELLO without payload or whose payload does
    not load, a TIME_REQUEST or TIME_DELTA without its number frame, a
    PUBLISH without topic, and, when tracing, a PUBLISH without value: the
    broker sends DIE to every record of the vector, in order, and exits
    with failure.  What a frame holds is not looked at: whatever the text
    of its number frame, a TIME_REQUEST or TIME_DELTA of a registered
    simulator does not end in [broker_die], and neither does, without
    tracing, a PUBLISH of a registered simulator that has no value
    frame. *)
Theorem malformed_message_dies st msg :
  (malformed st msg →
   step st msg
   = Die ((λ r, zmsg_send [c_str (name r); DIE]) <$> simulators st))
  ∧ (∀ fsender ftype f rest out,
       msg = fsender :: ftype :: f :: rest →
       data ftype = TIME_REQUEST ∨ data ftype = TIME_DELTA →
       is_Some (name_to_index st !! data fsender) →
       step st msg ≠ Die out)
  ∧ (∀ fsender ftype ftopic out,
       msg = [fsender; ftype; ftopic] →
       data ftype = PUBLISH →
       is_Some (name_to_index st !! data fsender) →
       do_trace st = false →
       step st msg ≠ Die out).
Proof.
  split; [|split].
  - destruct msg as [|fsender [|ftype rest]]; [done..|].
    intros [[Ht Hrest]|[[Ht ->]|[[Ht ->]|[[Ht Hrest]|Hnone]]]].
    + rewrite step_hello by done. unfold on_hello.
      destruct (decide (is_Some _)); [done|].
      destruct rest as [|f rest]; [done|]. by rewrite Hrest.
    + rewrite step_answer by (by left).
      unfold on_time_request_or_bye, accounting. rewrite Ht.
      destruct (name_to_index st !! data fsender); [|done].
      rewrite decide_False by done. by rewrite decide_True by done.
    + rewrite step_time_delta by done. unfold on_time_delta.
      by destruct (name_to_index st !! data fsender).
    + rewrite step_publish by done. unfold on_publish.
      destruct (name_to_index st !! data fsender); [|done].
      destruct Hrest as [->|[Htrace Hlen]]; [done|].
      destruct rest as [|ftopic [|fvalue rest]]; [done| |done].
      by rewrite Htrace.
    + by rewrite step_unknown.
  - intros fsender ftype f rest out -> [Ht|Ht] [index Hindex].
    + rewrite step_answer by (by left).
      unfold on_time_request_or_bye, accounting. rewrite Ht, Hindex.
      rewrite decide_False by done. rewrite decide_True by done.
      destruct (read_ull (data f)) as [t|]; [|done].
      destruct (update_sim _ _ _) as [sims|]; [|done].
      unfold account. destruct (update_sim _ _ _) as [sims'|]; [|done].
      destruct (decide _); [done|].
      case_decide; [|done]. unfold grant_round. by repeat case_match.
    + rewrite step_time_delta by done.
      unfold on_time_delta. rewrite Hindex.
      destruct (read_ull (data f)) as [d|]; [|done].
      by destruct (update_sim _ _ _).
  - intros fsender ftype ftopic out -> Ht [index Hindex] Htrace.
    rewrite step_publish by done.
    unfold on_publish, fan_out. rewrite Hindex, Htrace.
    by destruct (for_loop _ _ _) as [[sims o]|].
Qed.

(** ** Graceful termination *)

Lemma grant_round_not_return st out out' : grant_round st out ≠ Return0 out'.
Proof. unfold grant_round. by repeat case_match. Qed.

Lemma account_not_return st index sims byes' out out' :
  account st index sims byes' out ≠ Return0 out'.
Proof. unfold account. by repeat case_match. Qed.

(** ** The grant round *)

Lemma foldl_min_is_minimum (l : list time) x :
  is_minimum (foldl Z.min x l) (x :: l).
Proof.
  revert x. induction l as [|y l IH]; intros x; simpl.
  - split; [set_solver|]. by repeat constructor.
  - destruct (IH (x `min` y)) as [Hin Hle].
    apply Forall_cons in Hle as [Hxy Hle]. split.
    + apply elem_of_cons in Hin as [Hin|Hin]; [|set_solver].
      rewrite Hin. destruct (Z.min_spec x y) as [[_ ->]|[_ ->]]; set_solver.
    + repeat constructor; [lia..|done].
Qed.

Lemma min_element_is_minimum (l : list time) m :
  min_element l = Some m → is_minimum m l.
Proof.
  destruct l as [|x l]; [done|]. intros [= <-].
  apply foldl_min_is_minimum.
Qed.

(** The round when the vector holds the [n_sims] records it visits, with
    nonzero deltas: it grants the least of their actionable times, and
    leaves the records after them as they are. *)
Lemma grant_round_closed mid out0 :
  (n_sims mid ≤ length (simulators mid))%nat →
  0 < Z.of_nat (n_sims mid) <= INT_MAX →
  Forall (λ r, time_delta r ≠ 0) (take (n_sims mid) (simulators mid)) →
  n_processing mid = 0 →
  let visited := take (n_sims mid) (simulators mid) in
  ∃ granted,
    is_minimum granted (actionable <$> visited)
    ∧ grant_round mid out0
      = Continue
          (Mk (n_sims mid) (byes mid)
              (Z.of_nat (length (granted_sims granted visited)))
              (done_todo (round_sim granted) (n_sims mid) (simulators mid))
              (name_to_index mid) granted (do_trace mid))
          (out0 ++ (grant_message granted <$> granted_sims granted visited)).
Proof.
  intros Hlen Hn Hdelta Hzero visited. unfold grant_round.
  rewrite fill_time_actionable_take by lia. fold visited.
  destruct (min_element (actionable <$> visited)) as [granted|] eqn:Hmin.
  2:{ assert (length visited = n_sims mid) as Hvis
        by (unfold visited; by rewrite length_take_le).
      destruct visited; simpl in *; [lia|done]. }
  exists granted. split; [by apply min_element_is_minimum|].
  unfold visited. rewrite grant_loop; [|lia|lia|done|lia].
  by rewrite Hzero, Z.add_0_l.
Qed.

(** The round on a vector of exactly [n_sims] records with nonzero
    deltas: it grants the least actionable time. *)
Lemma grant_round_running mid out0 :
  running mid → n_processing mid = 0 →
  ∃ granted,
    is_minimum granted (actionable <$> simulators mid)
    ∧ grant_round mid out0
      = Continue
          (Mk (n_sims mid) (byes mid)
              (Z.of_nat (length (granted_sims granted (simulators mid))))
              (round_sim granted <$> simulators mid)
              (name_to_index mid) granted (do_trace mid))
          (out0 ++ (grant_message granted
                      <$> granted_sims granted (simulators mid))).
Proof.
  intros (Hlen & Hn & Hdelta) Hzero.
  destruct (grant_round_closed mid out0) as (granted & Hmin & Heq);
    [lia|done|by rewrite take_ge by lia|done|].
  rewrite take_ge in Hmin, Heq by lia.
  rewrite done_todo_all in Heq by lia. by exists granted.
Qed.

(** A TIME_REQUEST or BYE whose accounting leaves the counter at 0 runs
    the round. *)
Lemma step_round_close st fsender ftype rest mid out0 :
  data ftype = TIME_REQUEST ∨ data ftype = BYE →
  accounting st (data fsender) (data ftype) rest = Continue mid out0 →
  n_processing mid = 0 →
  step st (fsender :: ftype :: rest) = grant_round mid out0.
Proof.
  intros Htype Hacc Hzero. rewrite step_answer by done.
  unfold on_time_request_or_bye. rewrite Hacc.
  by rewrite decide_True by done.
Qed.

Lemma wrap_small z : 0 <= z <= ULLONG_MAX → wrap z = z.
Proof. unfold wrap, ULLONG_MAX, modulus. intros. apply Z.mod_small. lia. Qed.

(** The fast-forward in exact arithmetic, when the record is not ahead
    of the granted time. *)
Lemma fast_forward_exact lp delta granted :
  0 <= lp <= granted → granted <= ULLONG_MAX → 0 < delta →
  add lp (mul delta (sub granted lp / delta))
  = lp + (granted - lp) / delta * delta.
Proof.
  intros Hlp Hmax Hdelta. unfold add, mul, sub.
  rewrite (wrap_small (granted - lp)) by lia.
  pose proof (Z.mul_div_le (granted - lp) delta Hdelta) as Hle.
  assert (0 <= (granted - lp) / delta) by (apply Z.div_pos; lia).
  rewrite (wrap_small (delta * _)) by nia.
  rewrite wrap_small by nia. lia.
Qed.

(** ** HELLO *)

(** C5 (as amended).  Admission does not look at the size of the vector:
    a HELLO from a name that is not registered, with a payload that
    loads, returns to the poll with one more record, at the index that
    was the size, whatever that size; the record holds the sender's name,
    the delta and the topics of the payload, the times 0 and both flags
    off, and the other variables but [n_processing] are as before.  When
    the new size is exactly [n_sims], [n_processing] is set to [n_sims],
    every record is marked processing and sent ACK with its index and
    [n_sims]; otherwise [n_processing] and the records are as before and
    nothing is sent: the only events are the warnings about a missing
    [time_delta]. *)
Theorem hello_is_admitted_at_any_size st fsender ftype f rest cfg :
  data ftype = HELLO →
  name_to_index st !! data fsender = None →
  config f = Some cfg →
  let new := Sim (data fsender) 0
                 (default default_time_delta (cfg_time_delta cfg)) 0
                 false false (hello_subscriptions cfg) in
  ∃ st' out,
    step st (fsender :: ftype :: f :: rest) = Continue st' out
    ∧ length (simulators st') = S (length (simulators st))
    ∧ name_to_index st'
      = <[data fsender := length (simulators st)]> (name_to_index st)
    ∧ n_sims st' = n_sims st ∧ byes st' = byes st
    ∧ time_granted st' = time_granted st ∧ do_trace st' = do_trace st
    ∧ (∀ frames, zmsg_send frames ∉ hello_warnings (data fsender) cfg)
    ∧ (S (length (simulators st)) = n_sims st →
       n_processing st' = Z.of_nat (n_sims st)
       ∧ simulators st'
         = (λ r, Sim (name r) (time_requested r) (time_delta r)
                     (time_last_processed r) true (messages_pending r)
                     (subscription_values r))
             <$> (simulators st ++ [new])
       ∧ out = hello_warnings (data fsender) cfg
               ++ imap (λ i r, zmsg_send [c_str (name r); ACK;
                                          fmt_llu (Z.of_nat i);
                                          fmt_llu (Z.of_nat (n_sims st))])
                       (simulators st ++ [new]))
    ∧ (S (length (simulators st)) ≠ n_sims st →
       n_processing st' = n_processing st
       ∧ simulators st' = simulators st ++ [new]
       ∧ out = hello_warnings (data fsender) cfg).
Proof.
  intros Htype Hfresh Hcfg new. rewrite step_hello by done.
  rewrite (on_hello_admits _ _ _ _ _ Hfresh Hcfg).
  assert (length (simulators st ++ [hello_state (data fsender) cfg])
          = S (length (simulators st))) as Hlen
    by (rewrite length_app; simpl; lia).
  assert (∀ frames, zmsg_send frames ∉ hello_warnings (data fsender) cfg)
    as Hwarn.
  { intros frames. unfold hello_warnings.
    destruct (cfg_time_delta cfg); [apply not_elem_of_nil|].
    rewrite !not_elem_of_cons. by repeat split; [..|apply not_elem_of_nil]. }
  cbv zeta. rewrite Hlen.
  destruct (decide (S (length (simulators st)) = n_sims st))
    as [Hclose|Hopen]; eexists _, _; (split; [reflexivity|]); simpl;
    rewrite ?length_fmap, Hlen; do 7 (split; [done|]).
  - split; [|done]. intros _. split; [done|]. by split.
  - split; [done|]. intros _. split; [done|]. by split.
Qed.

(** ** Conforming runs *)

Section Counting.
Implicit Types (sims : SimVec) (r : SimulatorState).

Lemma count_processing_app sims1 sims2 :
  count_processing (sims1 ++ sims2)
  = count_processing sims1 + count_processing sims2.
Proof. unfold count_processing. rewrite filter_app, length_app. lia. Qed.

Lemma count_processing_cons r sims :
  count_processing (r :: sims)
  = (if processing r then 1 else 0) + count_processing sims.
Proof.
  unfold count_processing. rewrite filter_cons.
  destruct (processing r); simpl; lia.
Qed.

Lemma count_processing_nonneg sims : 0 <= count_processing sims.
Proof. unfold count_processing. lia. Qed.

Lemma count_processing_insert sims i r r' :
  sims !! i = Some r →
  count_processing (<[i := r']> sims)
  = count_processing sims - (if processing r then 1 else 0)
    + (if processing r' then 1 else 0).
Proof.
  intros Hr.
  rewrite <- (take_drop_middle sims i r Hr) at 2.
  rewrite (insert_take_drop sims i r') by by eapply lookup_lt_Some.
  rewrite !count_processing_app, !count_processing_cons. lia.
Qed.

Lemma count_processing_zero sims :
  count_processing sims = 0 → Forall (λ r, processing r = false) sims.
Proof.
  induction sims as [|r sims IH]; [by constructor|].
  rewrite count_processing_cons.
  pose proof (count_processing_nonneg sims).
  destruct (processing r) eqn:Hp; [lia|].
  intros Hzero. constructor; [done|]. apply IH. lia.
Qed.

Lemma count_processing_all sims :
  count_processing (set_processing true <$> sims) = Z.of_nat (length sims).
Proof.
  induction sims as [|r sims IH]; [done|].
  rewrite fmap_cons, count_processing_cons, IH. simpl. lia.
Qed.

Lemma count_processing_deliver topic sims :
  count_processing (deliver topic <$> sims) = count_processing sims.
Proof.
  induction sims as [|r sims IH]; [done|].
  rewrite fmap_cons, !count_processing_cons, IH.
  unfold deliver. by destruct (decide (topic ∈ subscription_values r)).
Qed.

Lemma count_processing_round granted sims :
  Forall (λ r, processing r = false) sims →
  count_processing (round_sim granted <$> sims)
  = Z.of_nat (length (granted_sims granted sims)).
Proof.
  unfold granted_sims.
  induction 1 as [|r sims Hr _ IH]; [done|].
  rewrite fmap_cons, count_processing_cons, IH, filter_cons.
  unfold round_sim.
  destruct (decide (granted = actionable r)); simpl; [lia|].
  rewrite Hr. lia.
Qed.
End Counting.

Section Records.
Implicit Types (sims : SimVec) (r : SimulatorState).

Lemma count_processing_lookup sims i r :
  sims !! i = Some r → processing r = true → 1 <= count_processing sims.
Proof.
  intros Hr Hp. rewrite <- (take_drop_middle sims i r Hr).
  rewrite count_processing_app, count_processing_cons, Hp.
  pose proof (count_processing_nonneg (take i sims)).
  pose proof (count_processing_nonneg (drop (S i) sims)). lia.
Qed.

Lemma record_ok_actionable granted r :
  record_ok granted r → processing r = false →
  0 <= granted → granted + time_delta r <= ULLONG_MAX →
  granted <= actionable r.
Proof.
  intros (Hdelta & Hlp & Hidle) Hp Hg Hmax.
  destruct (Hidle Hp) as [Hnext Hreq]. unfold actionable.
  destruct (messages_pending r); [|by apply Hreq].
  unfold add. rewrite wrap_small by lia. lia.
Qed.

Lemma record_ok_responded granted t r :
  record_ok granted r → 0 <= granted → granted <= t →
  record_ok granted (responded granted t r).
Proof.
  intros (Hdelta & Hlp & _) Hg Ht. unfold record_ok. simpl.
  split; [done|]. split; [lia|]. intros _. split; [lia|done].
Qed.

Lemma record_ok_round granted granted' r :
  record_ok granted r → processing r = false →
  0 <= granted <= granted' → granted' <= ULLONG_MAX →
  granted + time_delta r <= ULLONG_MAX →
  granted' <= actionable r →
  record_ok granted' (round_sim granted' r).
Proof.
  intros (Hdelta & Hlp & Hidle) Hp Hg Hmax Hbound Hmin.
  destruct (Hidle Hp) as [Hnext Hreq]. unfold round_sim.
  destruct (decide (granted' = actionable r)) as [Heq|Hne].
  - unfold record_ok. simpl. split; [done|]. split; [lia|done].
  - unfold record_ok. simpl. rewrite Hp.
    rewrite fast_forward_exact by lia.
    pose proof (Z.div_mod (granted' - time_last_processed r)
                          (time_delta r)) as Hdm.
    pose proof (Z.mod_pos_bound (granted' - time_last_processed r)
                                (time_delta r) Hdelta) as Hmod.
    assert (0 <= (granted' - time_last_processed r) / time_delta r)
      by (apply Z.div_pos; lia).
    split; [done|]. split; [nia|]. intros _. split; [nia|].
    intros Hpending. revert Hmin Hne. unfold actionable.
    rewrite Hpending. lia.
Qed.
End Records.

Section Accounting.

Lemma account_at st index (sims : SimVec) x byes' out :
  sims !! index = Some x →
  n_processing st ≠ INT_MIN →
  account st index sims byes' out
  = Continue
      (Mk (n_sims st) byes' (n_processing st - 1)
          (<[index := set_processing false
                        (set_time_last_processed (time_granted st) x)]> sims)
          (name_to_index st) (time_granted st) (do_trace st))
      out.
Proof.
  intros Hx Hmin. unfold account, update_sim. rewrite Hx. simpl.
  by rewrite decide_False by done.
Qed.

(** The accounting of an answer of the simulator at [index]. *)
Lemma accounting_responded st sender message_type rest index r mid out0 :
  message_type = TIME_REQUEST ∨ message_type = BYE →
  name_to_index st !! sender = Some index →
  simulators st !! index = Some r →
  accounting st sender message_type rest = Continue mid out0 →
  ∃ t,
    simulators mid
    = <[index := responded (time_granted st) t r]> (simulators st)
    ∧ n_processing mid = n_processing st - 1
    ∧ n_processing st ≠ INT_MIN
    ∧ time_granted mid = time_granted st
    ∧ n_sims mid = n_sims st
    ∧ (message_type = TIME_REQUEST →
       ∃ f rest', rest = f :: rest' ∧ read_ull (data f) = Some t)
    ∧ (message_type = BYE → t = ULLONG_MAX).
Proof.
  intros Htype Hindex Hr. unfold accounting. rewrite Hindex.
  pose proof (lookup_lt_Some _ _ _ Hr) as Hlt.
  destruct Htype as [-> | ->].
  - rewrite decide_False by done. rewrite decide_True by done.
    destruct rest as [|f rest']; [done|].
    destruct (read_ull (data f)) as [t|] eqn:Ht; [|done].
    unfold update_sim at 1. rewrite Hr. simpl.
    destruct (decide (n_processing st = INT_MIN)) as [Hmin|Hmin].
    { unfold account, update_sim.
      rewrite list_lookup_insert_eq by done. simpl.
      by rewrite decide_True by done. }
    rewrite (account_at _ _ _ (set_time_requested t r))
      by (by rewrite ?list_lookup_insert_eq).
    intros [= <- <-]. exists t. simpl.
    rewrite list_insert_insert_eq.
    split; [done|]. split; [done|]. split; [done|]. split; [done|].
    split; [done|]. split; [by eauto|done].
  - rewrite decide_True by done.
    destruct (decide (size _ = _)); [by destruct (for_loop _ _ _)|].
    unfold update_sim at 1. rewrite Hr. simpl.
    destruct (decide (n_processing st = INT_MIN)) as [Hmin|Hmin].
    { unfold account, update_sim.
      rewrite list_lookup_insert_eq by done. simpl.
      by rewrite decide_True by done. }
    rewrite (account_at _ _ _ (set_time_requested ULLONG_MAX r))
      by (by rewrite ?list_lookup_insert_eq).
    intros [= <- <-]. exists ULLONG_MAX. simpl.
    rewrite list_insert_insert_eq.
    split; [done|]. split; [done|]. split; [done|]. split; [done|].
    split; [done|]. split; [done|done].
Qed.
End Accounting.

Section Consistency.
Implicit Types (st mid : Broker) (r : SimulatorState).

Lemma record_ok_set_processing granted r :
  record_ok granted r → record_ok granted (set_processing true r).
Proof. intros (? & ? & _). split; [done|]. split; [done|]. by simpl. Qed.

Lemma record_ok_deliver granted topic r :
  record_ok granted r → record_ok granted (deliver topic r).
Proof.
  unfold deliver. intros Hok.
  destruct (decide (topic ∈ subscription_values r)); [|done].
  destruct Hok as (? & ? & Hidle). split; [done|]. split; [done|].
  simpl. intros Hp. by split; [apply Hidle|].
Qed.

Lemma record_ok_set_time_delta granted d r :
  record_ok granted r → processing r = true → 0 < d →
  record_ok granted (set_time_delta d r).
Proof.
  intros (_ & ? & _) Hp Hd. split; [done|]. split; [done|].
  simpl. by rewrite Hp.
Qed.

Lemma record_ok_hello sender cfg :
  0 < default default_time_delta (cfg_time_delta cfg) →
  record_ok 0 (hello_state sender cfg).
Proof. intros Hd. unfold record_ok. simpl. repeat split; lia. Qed.

Lemma consistent_init n tracing :
  0 < Z.of_nat n <= INT_MAX → consistent (init n tracing).
Proof.
  intros Hn. split; simpl; try done. lia.
Qed.

Lemma consistent_accounting st sender message_type rest mid out0 :
  consistent st →
  message_type = TIME_REQUEST ∨ message_type = BYE →
  holds_grant st sender →
  (message_type = TIME_REQUEST →
   ∀ f rest' t, rest = f :: rest' → read_ull (data f) = Some t →
                time_granted st <= t) →
  accounting st sender message_type rest = Continue mid out0 →
  consistent mid
  ∧ time_granted mid = time_granted st
  ∧ length (simulators mid) = n_sims mid.
Proof.
  intros [Hsize Hn Hreg Hcount [Hg Hbound] Hrec] Htype
    (index & r & Hindex & Hr & Hp) Hreq Hacc.
  destruct (accounting_responded _ _ _ _ _ _ _ _ Htype Hindex Hr Hacc)
    as (t & Hsims & Hproc & _ & Htime & Hsame & Htr & Hbye).
  pose proof (count_processing_lookup _ _ _ Hr Hp) as Hone.
  assert (length (simulators st) = n_sims st) as Hclosed.
  { destruct (decide (length (simulators st) < n_sims st)%nat) as [Hlt|];
      [|lia].
    destruct (Hreg Hlt). lia. }
  assert (time_granted st <= t) as Ht.
  { destruct Htype as [-> | ->].
    - destruct (Htr eq_refl) as (f & rest' & -> & Hread). by eapply Hreq.
    - rewrite (Hbye eq_refl). lia. }
  split; [|split; [done|]].
  - split; rewrite ?Hsims, ?Hproc, ?Htime, ?Hsame, ?length_insert.
    + done.
    + done.
    + lia.
    + rewrite (count_processing_insert _ _ r) by done.
      rewrite Hp. simpl. lia.
    + unfold bounded. rewrite Hsims, Htime.
      split; [done|]. apply Forall_insert; [done|]. simpl.
      exact (Forall_lookup_1 _ _ _ _ Hbound Hr).
    + apply Forall_insert; [done|].
      apply record_ok_responded; [|lia|done].
      exact (Forall_lookup_1 _ _ _ _ Hrec Hr).
  - by rewrite Hsims, Hsame, length_insert.
Qed.

Lemma consistent_round mid out0 st' out :
  consistent mid →
  length (simulators mid) = n_sims mid →
  n_processing mid = 0 →
  grant_round mid out0 = Continue st' out →
  bounded st' →
  consistent st' ∧ time_granted mid <= time_granted st'.
Proof.
  intros [Hsize Hn Hreg Hcount [Hg Hbound] Hrec] Hclosed Hzero Hround Hb'.
  assert (Forall (λ r, processing r = false) (simulators mid)) as Hidle.
  { apply count_processing_zero. lia. }
  assert (running mid) as Hrun.
  { split; [done|]. split; [done|].
    eapply Forall_impl; [exact Hrec|]. intros r (? & _). lia. }
  destruct (grant_round_running mid out0 Hrun Hzero)
    as (granted & [Hin Hleast] & Heq).
  rewrite Heq in Hround. injection Hround as <- <-.
  destruct Hb' as [Hg' Hbound']. simpl in *.
  assert (time_granted mid <= granted) as Hmono.
  { apply list_elem_of_fmap in Hin as (r & -> & Hr).
    apply list_elem_of_lookup in Hr as [i Hr].
    apply record_ok_actionable.
    - exact (Forall_lookup_1 _ _ _ _ Hrec Hr).
    - exact (Forall_lookup_1 _ _ _ _ Hidle Hr).
    - lia.
    - exact (Forall_lookup_1 _ _ _ _ Hbound Hr). }
  split; [|done].
  split; simpl; rewrite ?length_fmap.
  - done.
  - done.
  - lia.
  - by rewrite count_processing_round.
  - by split.
  - apply Forall_fmap, Forall_lookup. intros i r Hr. simpl.
    apply (record_ok_round (time_granted mid)).
    + exact (Forall_lookup_1 _ _ _ _ Hrec Hr).
    + exact (Forall_lookup_1 _ _ _ _ Hidle Hr).
    + lia.
    + lia.
    + exact (Forall_lookup_1 _ _ _ _ Hbound Hr).
    + rewrite Forall_fmap in Hleast.
      exact (Forall_lookup_1 _ _ _ _ Hleast Hr).
Qed.
End Consistency.

Section ConformingSteps.
Implicit Types (st : Broker).

Lemma consistent_hello st sender cfg st' out :
  consistent st →
  (length (simulators st) < n_sims st)%nat →
  0 < default default_time_delta (cfg_time_delta cfg) →
  (let sims' := simulators st ++ [hello_state sender cfg] in
   if decide (length sims' = n_sims st)
   then Continue (Mk (n_sims st) (byes st) (Z.of_nat (n_sims st))
                     (set_processing true <$> sims')
                     (<[sender := length (simulators st)]>
                        (name_to_index st))
                     (time_granted st) (do_trace st))
                 (hello_warnings sender cfg
                  ++ imap (ack_message (n_sims st)) sims')
   else Continue (Mk (n_sims st) (byes st) (n_processing st) sims'
                     (<[sender := length (simulators st)]>
                        (name_to_index st))
                     (time_granted st) (do_trace st))
                 (hello_warnings sender cfg)) = Continue st' out →
  bounded st' →
  consistent st' ∧ time_granted st <= time_granted st'.
Proof.
  intros [Hsize Hn Hreg Hcount [Hg Hbound] Hrec] Hopen Hdelta Hstep Hb'.
  destruct (Hreg Hopen) as [Hproc Htime]. simpl in Hstep.
  assert (Forall (record_ok (time_granted st))
                 (simulators st ++ [hello_state sender cfg])) as Hrec'.
  { apply Forall_app. split; [done|]. constructor; [|constructor].
    rewrite Htime. by apply record_ok_hello. }
  pose proof (length_app (simulators st) [hello_state sender cfg]) as Hlen.
  simpl in Hlen.
  destruct (decide (length _ = _)) as [Hclose|Hstill];
    injection Hstep as <- <-; (split; [|simpl; lia]);
    split; simpl; rewrite ?length_fmap; try done; try lia.
  - by rewrite count_processing_all, Hclose.
  - eapply Forall_fmap, Forall_impl; [exact Hrec'|].
    intros r. apply record_ok_set_processing.
  - rewrite count_processing_app, count_processing_cons. simpl.
    unfold count_processing at 2. simpl. lia.
Qed.

Lemma consistent_answer st fsender ftype rest st' out :
  consistent st →
  data ftype = TIME_REQUEST ∨ data ftype = BYE →
  holds_grant st (data fsender) →
  (data ftype = TIME_REQUEST →
   ∀ f rest' t, rest = f :: rest' → read_ull (data f) = Some t →
                time_granted st <= t) →
  on_time_request_or_bye st (data fsender) (data ftype) rest
  = Continue st' out →
  bounded st' →
  consistent st' ∧ time_granted st <= time_granted st'.
Proof.
  intros Hc Htype Hgrant Hreq Hstep Hb'.
  unfold on_time_request_or_bye in Hstep.
  destruct (accounting _ _ _ _) as [mid out0| | |] eqn:Hacc; try done.
  destruct (consistent_accounting _ _ _ _ _ _ Hc Htype Hgrant Hreq Hacc)
    as (Hmid & Htime & Hlen).
  rewrite <- Htime. case_decide.
  - by eapply consistent_round.
  - by injection Hstep as <- <-.
Qed.

Lemma consistent_deliver st topic :
  consistent st →
  consistent (with_simulators st (deliver topic <$> simulators st)).
Proof.
  intros [Hsize Hn Hreg Hcount [Hg Hbound] Hrec].
  split; simpl; rewrite ?length_fmap; try done.
  - by rewrite count_processing_deliver.
  - split; [done|]. simpl. apply Forall_fmap.
    eapply Forall_impl; [exact Hbound|]. intros r. simpl.
    unfold deliver. by destruct (decide _).
  - eapply Forall_fmap, Forall_impl; [exact Hrec|].
    intros r. apply record_ok_deliver.
Qed.

Lemma consistent_set_time_delta st index r d :
  consistent st →
  simulators st !! index = Some r → processing r = true → 0 < d →
  bounded (with_simulators st (<[index := set_time_delta d r]>
                                 (simulators st))) →
  consistent (with_simulators st (<[index := set_time_delta d r]>
                                    (simulators st))).
Proof.
  intros [Hsize Hn Hreg Hcount _ Hrec] Hr Hp Hd Hb'.
  split; simpl; rewrite ?length_insert; try done.
  - rewrite (count_processing_insert _ _ r) by done. simpl. lia.
  - apply Forall_insert; [done|].
    apply record_ok_set_time_delta; [|done..].
    exact (Forall_lookup_1 _ _ _ _ Hrec Hr).
Qed.

Lemma consistent_step st msg st' out :
  consistent st → conforming st msg →
  step st msg = Continue st' out → bounded st' →
  consistent st' ∧ time_granted st <= time_granted st'.
Proof.
  intros Hc Hconf Hstep Hb'.
  destruct Hconf as
    [fsender ftype f rest cfg Htype Hopen Hcfg Hdelta
    |fsender ftype f rest t Htype Hgrant Hread Hreq
    |fsender ftype rest Htype Hgrant
    |fsender ftype f rest d Htype (index & r & Hindex & Hr & Hp) Hread Hdelta
    |fsender ftype rest Htype Hclosed].
  - rewrite step_hello in Hstep by done.
    destruct (name_to_index st !! data fsender) as [i|] eqn:Hfresh.
    { unfold on_hello in Hstep. rewrite Hfresh in Hstep.
      by rewrite decide_True in Hstep by done. }
    rewrite (on_hello_admits _ _ _ _ _ Hfresh Hcfg) in Hstep.
    by eapply consistent_hello.
  - rewrite step_answer in Hstep by (by left).
    eapply consistent_answer; try done; [by left|].
    intros _ ? ? ? [= <- <-] ?. congruence.
  - rewrite step_answer in Hstep by (by right).
    eapply consistent_answer; try done; [by right|].
    rewrite Htype. by intros [=].
  - rewrite step_time_delta in Hstep by done.
    unfold on_time_delta, update_sim in Hstep.
    rewrite Hindex, Hread, Hr in Hstep. simpl in Hstep.
    injection Hstep as <- <-.
    split; [by apply consistent_set_time_delta|simpl; lia].
  - rewrite step_publish in Hstep by done.
    unfold on_publish in Hstep.
    destruct (name_to_index st !! data fsender); [|done].
    destruct rest as [|ftopic rest']; [done|].
    destruct (do_trace st); [destruct rest' as [|fvalue rest'']; [done|]|];
      rewrite fan_out_running in Hstep by done;
      injection Hstep as <- <-;
      (split; [by apply consistent_deliver|simpl; lia]).
Qed.

Lemma consistent_run st st' :
  consistent st → conforming_run st st' →
  consistent st' ∧ time_granted st <= time_granted st'.
Proof.
  intros Hc Hrun. induction Hrun as [st|st msg st1 out st2 Hconf Hstep Hb _ IH].
  - split; [done|lia].
  - destruct (consistent_step _ _ _ _ Hc Hconf Hstep Hb) as [Hc1 Hle].
    destruct (IH Hc1) as [Hc2 Hle']. split; [done|lia].
Qed.
End ConformingSteps.

(** C7 (as amended).  From the start of the loop, as long as the
    simulators keep to the protocol and the times stay within 64 bits,
    the granted time never goes back: of two loop boundaries of such a
    run the later has a [time_granted] at least that of the earlier. *)
Theorem time_granted_monotone_on_conforming_runs n tracing st st' :
  0 < Z.of_nat n <= INT_MAX →
  conforming_run (init n tracing) st →
  conforming_run st st' →
  time_granted st <= time_granted st'.
Proof.
  intros Hn Hrun Hrun'.
  destruct (consistent_run _ _ (consistent_init n tracing Hn) Hrun)
    as [Hc _].
  by destruct (consistent_run _ _ Hc Hrun').
Qed.

(** ** Multiples of the delta *)

Section Alignment.
Implicit Types (st mid : Broker) (r : SimulatorState).

Lemma grant_round_sims mid out0 st' out :
  consistent mid →
  length (simulators mid) = n_sims mid →
  n_processing mid = 0 →
  grant_round mid out0 = Continue st' out →
  simulators st' = round_sim (time_granted st') <$> simulators mid.
Proof.
  intros [Hsize Hn Hreg Hcount [Hg Hbound] Hrec] Hclosed Hzero Hround.
  assert (running mid) as Hrun.
  { split; [done|]. split; [done|].
    eapply Forall_impl; [exact Hrec|]. intros r (? & _). lia. }
  destruct (grant_round_running mid out0 Hrun Hzero) as (granted & _ & Heq).
  rewrite Heq in Hround. by injection Hround as <- <-.
Qed.

Lemma tick_ok_hello granted sender cfg :
  tick_ok granted (hello_state sender cfg).
Proof.
  unfold tick_ok. simpl. split; [apply Z.divide_0_r|].
  split; [left; apply Z.divide_0_r|done].
Qed.

Lemma tick_ok_set_processing r :
  tick_ok 0 r → tick_ok 0 (set_processing true r).
Proof.
  intros (Hlp & Hreq & _). split; [done|]. split; [done|].
  intros _. apply Z.divide_0_r.
Qed.

Lemma tick_ok_deliver granted topic r :
  tick_ok granted r → tick_ok granted (deliver topic r).
Proof. unfold deliver. by destruct (decide _). Qed.

Lemma tick_ok_responded granted t r :
  tick_ok granted r → processing r = true →
  (time_delta r | t) ∨ t = ULLONG_MAX →
  tick_ok granted (responded granted t r).
Proof.
  intros (_ & _ & Hg) Hp Ht. unfold tick_ok. simpl.
  split; [by apply Hg|]. by split.
Qed.

(** What a round makes of a record that keeps to its ticks. *)
Lemma tick_ok_round granted granted' r :
  record_ok granted r → processing r = false →
  0 <= granted <= granted' →
  granted + time_delta r <= ULLONG_MAX →
  granted' + time_delta r <= ULLONG_MAX →
  tick_ok granted r →
  tick_ok granted' (round_sim granted' r).
Proof.
  intros (Hdelta & Hlp & _) Hp Hg Hbound Hbound' (Hal & Hreq & _).
  unfold round_sim.
  destruct (decide (granted' = actionable r)) as [Heq|Hne].
  - unfold tick_ok. simpl. split; [done|]. split; [done|].
    intros _. unfold actionable in Heq.
    destruct (messages_pending r).
    + rewrite Heq. unfold add. rewrite wrap_small by lia.
      apply Z.divide_add_r; [done|apply Z.divide_refl].
    + destruct Hreq as [Hreq|Hmax]; [by rewrite Heq|].
      rewrite Hmax in Heq. lia.
  - unfold tick_ok. simpl. rewrite Hp.
    rewrite fast_forward_exact by lia.
    split; [|by split].
    apply Z.divide_add_r; [done|]. apply Z.divide_factor_r.
Qed.

Lemma tick_ok_answer st fsender ftype rest st' out :
  consistent st →
  Forall (tick_ok (time_granted st)) (simulators st) →
  data ftype = TIME_REQUEST ∨ data ftype = BYE →
  holds_grant st (data fsender) →
  (data ftype = TIME_REQUEST →
   ∀ f rest' t, rest = f :: rest' → read_ull (data f) = Some t →
                time_granted st <= t) →
  (data ftype = TIME_REQUEST →
   ∀ f rest' index r t,
     rest = f :: rest' →
     name_to_index st !! data fsender = Some index →
     simulators st !! index = Some r →
     read_ull (data f) = Some t →
     (time_delta r | t)) →
  on_time_request_or_bye st (data fsender) (data ftype) rest
  = Continue st' out →
  bounded st' →
  Forall (tick_ok (time_granted st')) (simulators st').
Proof.
  intros Hc Hticks Htype Hgrant Hreq Htick Hstep Hb'.
  unfold on_time_request_or_bye in Hstep.
  destruct (accounting _ _ _ _) as [mid out0| | |] eqn:Hacc; try done.
  destruct (consistent_accounting _ _ _ _ _ _ Hc Htype Hgrant Hreq Hacc)
    as (Hmid & Htime & Hlen).
  destruct Hgrant as (index & r0 & Hindex & Hr0 & Hp).
  destruct (accounting_responded _ _ _ _ _ _ _ _ Htype Hindex Hr0 Hacc)
    as (t & Hsims & _ & _ & _ & _ & Htr & Hbye).
  assert (Forall (tick_ok (time_granted mid)) (simulators mid)) as Hmidticks.
  { rewrite Hsims, Htime. apply Forall_insert; [done|].
    apply tick_ok_responded; [|done|].
    - exact (Forall_lookup_1 _ _ _ _ Hticks Hr0).
    - destruct Htype as [Ht|Ht].
      + destruct (Htr Ht) as (f & rest' & -> & Hread). left.
        by eapply (Htick Ht f rest' index r0 t).
      + right. by apply Hbye. }
  case_decide as Hz; [|by injection Hstep as <- <-].
  destruct (consistent_round _ _ _ _ Hmid Hlen (eq_sym Hz) Hstep Hb')
    as [_ Hle].
  pose proof (grant_round_sims _ _ _ _ Hmid Hlen (eq_sym Hz) Hstep) as Hst'.
  destruct Hmid as [_ _ _ Hcount [Hg Hbound] Hrec].
  assert (Forall (λ r, processing r = false) (simulators mid)) as Hidle.
  { apply count_processing_zero. lia. }
  destruct Hb' as [Hg' Hbound']. rewrite Hst' in Hbound' |- *.
  rewrite Forall_fmap in Hbound'.
  apply Forall_fmap, Forall_lookup. intros i m Hm. simpl.
  apply (tick_ok_round (time_granted mid)).
  - exact (Forall_lookup_1 _ _ _ _ Hrec Hm).
  - exact (Forall_lookup_1 _ _ _ _ Hidle Hm).
  - lia.
  - exact (Forall_lookup_1 _ _ _ _ Hbound Hm).
  - pose proof (Forall_lookup_1 _ _ _ _ Hbound' Hm) as Hb. simpl in Hb.
    revert Hb. unfold round_sim. by destruct (decide _).
  - exact (Forall_lookup_1 _ _ _ _ Hmidticks Hm).
Qed.

Lemma tick_ok_step st msg st' out :
  consistent st →
  Forall (tick_ok (time_granted st)) (simulators st) →
  conforming st msg → on_tick st msg →
  step st msg = Continue st' out → bounded st' →
  Forall (tick_ok (time_granted st')) (simulators st').
Proof.
  intros Hc Hticks Hconf Htick Hstep Hb'.
  destruct Hconf as
    [fsender ftype f rest cfg Htype Hopen Hcfg Hpos
    |fsender ftype f rest t Htype Hgrant Hread Hreq
    |fsender ftype rest Htype Hgrant
    |fsender ftype f rest d Htype Hgrant Hread Hpos
    |fsender ftype rest Htype Hclosed].
  - rewrite step_hello in Hstep by done.
    destruct (name_to_index st !! data fsender) as [j|] eqn:Hfresh.
    { unfold on_hello in Hstep. rewrite Hfresh in Hstep.
      by rewrite decide_True in Hstep by done. }
    rewrite (on_hello_admits _ _ _ _ _ Hfresh Hcfg) in Hstep.
    simpl in Hstep.
    destruct (consistent_registration _ Hc Hopen) as [_ Hzero].
    assert (Forall (tick_ok (time_granted st))
              (simulators st ++ [hello_state (data fsender) cfg])) as Hall.
    { apply Forall_app. split; [done|].
      constructor; [apply tick_ok_hello|constructor]. }
    destruct (decide (length _ = _)); injection Hstep as <- <-; simpl;
      [|done].
    rewrite Hzero in Hall |- *. apply Forall_fmap.
    eapply Forall_impl; [exact Hall|]. intros r. apply tick_ok_set_processing.
  - rewrite step_answer in Hstep by (by left).
    eapply (tick_ok_answer st fsender ftype (f :: rest)); try done.
    + by left.
    + intros _ ? ? ? [= <- <-] ?. congruence.
    + intros Ht. by apply (Htick fsender ftype (f :: rest) eq_refl).
  - rewrite step_answer in Hstep by (by right).
    eapply (tick_ok_answer st fsender ftype rest); try done.
    + by right.
    + rewrite Htype. by intros [=].
    + rewrite Htype. by intros [=].
  - by destruct (Htick fsender ftype (f :: rest) eq_refl).
  - rewrite step_publish in Hstep by done.
    unfold on_publish in Hstep.
    destruct (name_to_index st !! data fsender); [|done].
    destruct rest as [|ftopic rest']; [done|].
    destruct (do_trace st); [destruct rest' as [|fvalue rest'']; [done|]|];
      rewrite fan_out_running in Hstep by done;
      injection Hstep as <- <-; simpl;
      (eapply Forall_fmap, Forall_impl; [exact Hticks|]);
      intros r; apply tick_ok_deliver.
Qed.

Lemma tick_run_invariant st st' :
  consistent st →
  Forall (tick_ok (time_granted st)) (simulators st) →
  tick_run st st' →
  consistent st' ∧ Forall (tick_ok (time_granted st')) (simulators st').
Proof.
  intros Hc Hticks Hrun.
  induction Hrun as [st|st msg st1 out st2 Hconf Htick Hstep Hb _ IH];
    [done|].
  destruct (consistent_step _ _ _ _ Hc Hconf Hstep Hb) as [Hc1 _].
  apply IH; [done|].
  exact (tick_ok_step _ _ _ _ Hc Hticks Hconf Htick Hstep Hb).
Qed.
End Alignment.

(** C6 (as amended).  From the start of the loop, in a run in which the
    simulators keep to the protocol, none sends TIME_DELTA and every time
    a TIME_REQUEST asks for is a multiple of the [time_delta] of its
    sender (the times staying within 64 bits): at every loop boundary
    the [time_last_processed] of every record is a multiple of its
    [time_delta]. *)
Theorem time_last_processed_multiple_on_tick_runs n tracing st :
  0 < Z.of_nat n <= INT_MAX →
  tick_run (init n tracing) st →
  Forall (λ r, (time_delta r | time_last_processed r)) (simulators st).
Proof.
  intros Hn Hrun.
  destruct (tick_run_invariant (init n tracing) st) as [_ Hticks];
    [by apply consistent_init|by constructor|done|].
  eapply Forall_impl; [exact Hticks|]. by intros r (Hlp & _).
Qed.

(** ** Every run of the loop *)

Section Names.
Implicit Types (sims : SimVec).

Lemma names_insert sims i r r' :
  sims !! i = Some r → name r' = name r →
  name <$> <[i := r']> sims = name <$> sims.
Proof.
  intros Hr Hname. rewrite list_fmap_insert, Hname.
  apply list_insert_id. by rewrite list_lookup_fmap, Hr.
Qed.

Lemma names_update sims sims' index f :
  (∀ r, name (f r) = name r) →
  update_sim index f sims = Some sims' →
  name <$> sims' = name <$> sims.
Proof.
  intros Hf. unfold update_sim.
  destruct (sims !! index) as [r|] eqn:Hr; [|done].
  simpl. intros [= <-]. by eapply names_insert.
Qed.

Lemma ack_loop_names total n sims out sims' out' :
  for_loop n (ack_body total) (sims, out) = Some (sims', out') →
  name <$> sims' = name <$> sims.
Proof.
  apply (for_loop_invariant (λ _ acc, name <$> acc.1 = name <$> sims));
    [done|].
  intros i [s o] [s' o'] _ Hs. simpl in *.
  destruct (s !! i) as [r|] eqn:Hr; [|done]. simpl. intros [= <- _].
  by rewrite (names_insert _ _ r).
Qed.

Lemma publish_loop_names topic forwarded n sims out sims' out' :
  for_loop n (publish_body topic forwarded) (sims, out) = Some (sims', out') →
  name <$> sims' = name <$> sims.
Proof.
  apply (for_loop_invariant (λ _ acc, name <$> acc.1 = name <$> sims));
    [done|].
  intros i [s o] [s' o'] _ Hs. simpl in *.
  destruct (s !! i) as [r|] eqn:Hr; [|done]. simpl.
  destruct (decide (topic ∈ subscription_values r)); intros [= <- _];
    [|done].
  by rewrite (names_insert _ _ r).
Qed.

Lemma grant_loop_names granted ta n sims n_proc out sims' n_proc' out' :
  for_loop n (grant_body granted ta) (sims, n_proc, out)
  = Some (sims', n_proc', out') →
  name <$> sims' = name <$> sims.
Proof.
  apply (for_loop_invariant (λ _ acc, name <$> acc.1.1 = name <$> sims));
    [done|].
  intros i [[s np] o] [[s' np'] o'] _ Hs. simpl in *.
  destruct (ta !! i) as [a|]; [|done]. simpl.
  destruct (decide (granted = a)).
  - destruct (decide (np = INT_MAX)); [done|].
    destruct (s !! i) as [r|] eqn:Hr; [|done]. simpl. intros [= <- _ _].
    by rewrite (names_insert _ _ r).
  - destruct (s !! i) as [r|] eqn:Hr; [|done]. simpl.
    unfold fast_forward.
    destruct (div _ _); [|done]. simpl. intros [= <- _ _].
    by rewrite (names_insert _ _ r).
Qed.

Lemma grant_round_names mid out0 st' out :
  grant_round mid out0 = Continue st' out →
  names st' = names mid
  ∧ name_to_index st' = name_to_index mid
  ∧ byes st' = byes mid
  ∧ n_sims st' = n_sims mid ∧ do_trace st' = do_trace mid.
Proof.
  unfold grant_round, names.
  destruct (fill_time_actionable _ _) as [ta|]; [|done].
  destruct (min_element ta) as [granted|]; [|done].
  destruct (for_loop _ _ _) as [[[sims np] o]|] eqn:Hloop; [|done].
  intros [= <- <-]. simpl.
  by rewrite (grant_loop_names _ _ _ _ _ _ _ _ _ Hloop).
Qed.

Lemma account_names st index sims byes' out0 mid out :
  account st index sims byes' out0 = Continue mid out →
  names mid = name <$> sims
  ∧ name_to_index mid = name_to_index st
  ∧ byes mid = byes'
  ∧ n_sims mid = n_sims st ∧ do_trace mid = do_trace st.
Proof.
  unfold account, names.
  destruct (update_sim _ _ _) as [sims'|] eqn:Hup; [|done].
  destruct (decide _); [done|]. intros [= <- <-]. simpl.
  by apply names_update in Hup.
Qed.

(** An answer that returns to the poll leaves the registry as it is, and
    adds the sender to [byes] if it is a BYE. *)
Lemma answer_names st sender message_type rest st' out :
  on_time_request_or_bye st sender message_type rest = Continue st' out →
  names st' = names st
  ∧ name_to_index st' = name_to_index st
  ∧ n_sims st' = n_sims st ∧ do_trace st' = do_trace st
  ∧ is_Some (name_to_index st !! sender)
  ∧ (byes st' = byes st
     ∨ (message_type = BYE
        ∧ byes st' = {[sender]} ∪ byes st
        ∧ size ({[sender]} ∪ byes st) ≠ n_sims st)).
Proof.
  unfold on_time_request_or_bye.
  destruct (accounting _ _ _ _) as [mid out0| | |] eqn:Hacc; try done.
  intros Hstep.
  assert (names mid = names st
          ∧ name_to_index mid = name_to_index st
          ∧ n_sims mid = n_sims st ∧ do_trace mid = do_trace st
          ∧ is_Some (name_to_index st !! sender)
          ∧ (byes mid = byes st
             ∨ (message_type = BYE
                ∧ byes mid = {[sender]} ∪ byes st
                ∧ size ({[sender]} ∪ byes st) ≠ n_sims st)))
    as (Hn & Hi & Hs & Ht & Hreg & Hb).
  { revert Hacc. unfold accounting, broker_die.
    destruct (name_to_index st !! sender) as [index|]; [|done].
    destruct (decide (BYE = message_type)) as [<-|].
    - destruct (decide (size _ = _)); [by destruct (for_loop _ _ _)|].
      destruct (update_sim _ _ _) as [sims|] eqn:Hup; [|done].
      intros (-> & -> & -> & -> & ->)%account_names.
      apply names_update in Hup; [|done]. rewrite Hup. eauto 10.
    - destruct (decide (TIME_REQUEST = message_type)).
      + destruct rest as [|f rest']; [done|].
        destruct (read_ull (data f)) as [t|]; [|done].
        destruct (update_sim _ _ _) as [sims|] eqn:Hup; [|done].
        intros (-> & -> & -> & -> & ->)%account_names.
        apply names_update in Hup; [|done]. rewrite Hup. eauto 10.
      + intros (-> & -> & -> & -> & ->)%account_names. eauto 10. }
  case_decide.
  - apply grant_round_names in Hstep as (-> & -> & -> & -> & ->). eauto 10.
  - injection Hstep as <- <-. eauto 10.
Qed.

Lemma publish_names st sender tail rest st' out :
  on_publish st sender tail rest = Continue st' out →
  names st' = names st
  ∧ name_to_index st' = name_to_index st
  ∧ byes st' = byes st
  ∧ n_sims st' = n_sims st ∧ do_trace st' = do_trace st.
Proof.
  unfold on_publish, fan_out, broker_die, names. intros Hstep.
  repeat (case_match; simplify_eq/=);
    by erewrite publish_loop_names by done.
Qed.

Lemma time_delta_names st sender rest st' out :
  on_time_delta st sender rest = Continue st' out →
  names st' = names st
  ∧ name_to_index st' = name_to_index st
  ∧ byes st' = byes st
  ∧ n_sims st' = n_sims st ∧ do_trace st' = do_trace st.
Proof.
  unfold on_time_delta, broker_die, names. intros Hstep.
  repeat (case_match; simplify_eq/=).
  match goal with H : update_sim _ _ _ = Some _ |- _ =>
    by apply names_update in H end.
Qed.

Lemma hello_names st sender rest st' out :
  on_hello st sender rest = Continue st' out →
  name_to_index st !! sender = None
  ∧ names st' = names st ++ [sender]
  ∧ name_to_index st'
    = <[sender := length (simulators st)]> (name_to_index st)
  ∧ byes st' = byes st
  ∧ n_sims st' = n_sims st ∧ do_trace st' = do_trace st.
Proof.
  unfold on_hello, broker_die, names.
  destruct (decide (is_Some _)) as [|Hfresh]; [done|].
  apply eq_None_not_Some in Hfresh.
  destruct rest as [|f rest']; [done|].
  destruct (config f) as [cfg|]; [|done].
  destruct (decide (length _ = _)).
  - destruct (for_loop _ _ _) as [[sims o]|] eqn:Hloop; [|done].
    intros [= <- <-]. simpl.
    rewrite (ack_loop_names _ _ _ _ _ _ Hloop), fmap_app. done.
  - intros [= <- <-]. simpl. by rewrite fmap_app.
Qed.
End Names.

Section Registry.
Implicit Types (st : Broker).

Lemma registry_ok_init n tracing : registry_ok n tracing (init n tracing).
Proof.
  by split.
Qed.

Lemma size_add_one (sender : string) (X : gset string) :
  (size ({[sender]} ∪ X) ≤ S (size X))%nat.
Proof.
  rewrite size_union_alt, size_singleton.
  assert (X ∖ {[sender]} ⊆ X) as Hsub%subseteq_size by set_solver. lia.
Qed.

Lemma size_pos_of_elem (sender : string) (X : gset string) :
  sender ∈ X → (0 < size X)%nat.
Proof.
  intros Hin. assert (size X ≠ 0%nat); [|lia].
  apply size_non_empty_iff. set_solver.
Qed.

Lemma registry_ok_hello n tracing st st' sender :
  registry_ok n tracing st →
  name_to_index st !! sender = None →
  names st' = names st ++ [sender] →
  name_to_index st'
  = <[sender := length (simulators st)]> (name_to_index st) →
  byes st' = byes st →
  n_sims st' = n_sims st → do_trace st' = do_trace st →
  registry_ok n tracing st'.
Proof.
  intros [Hn Ht Hsize Hindex Hbyes Hopen] Hfresh Hnames Hmap Hb Hsame Htr.
  assert (length (simulators st') = S (length (simulators st))) as Hlen.
  { rewrite <- (length_fmap name (simulators st')).
    fold (names st'). rewrite Hnames, length_app. unfold names.
    rewrite length_fmap. simpl. lia. }
  assert (length (names st) = length (simulators st)) as Hnl
    by (unfold names; by rewrite length_fmap).
  split.
  - congruence.
  - congruence.
  - rewrite Hmap, map_size_insert_None by done. lia.
  - intros nm i. rewrite Hmap, Hnames, lookup_snoc_Some, Hnl.
    destruct (decide (sender = nm)) as [->|Hne].
    + rewrite lookup_insert_eq. split.
      * intros [= <-]. by right.
      * intros [[_ Hi]|[-> _]]; [|done].
        apply Hindex in Hi. congruence.
    + rewrite lookup_insert_ne by done. rewrite Hindex. split.
      * intros Hi. left. split; [|done].
        rewrite <- Hnl. by eapply lookup_lt_Some.
      * by intros [[_ Hi]|[_ ?]].
  - rewrite Hb, Hmap, dom_insert_L. set_solver.
  - rewrite Hb. done.
Qed.

Lemma registry_ok_step n tracing st msg st' out :
  registry_ok n tracing st →
  step st msg = Continue st' out →
  registry_ok n tracing st'.
Proof.
  intros Hok. destruct msg as [|fsender [|ftype rest]]; [done..|].
  unfold step.
  destruct (decide (HELLO = data ftype)).
  { intros (? & ? & ? & ? & ? & ?)%hello_names.
    by eapply registry_ok_hello. }
  destruct Hok as [Hn Ht Hsize Hindex Hbyes Hopen].
  destruct (decide (TIME_REQUEST = data ftype ∨ BYE = data ftype)).
  { intros (Hnames & Hmap & Hsame & Htr & [i Hreg] & Hb)%answer_names.
    unfold names in *.
    assert (length (simulators st') = length (simulators st)) as Hlen.
    { by rewrite <- (length_fmap name), Hnames, length_fmap. }
    split; rewrite ?Hmap, ?Hlen; unfold names; rewrite ?Hnames;
      try done; try congruence.
    - destruct Hb as [->|(_ & -> & _)]; [done|].
      apply union_subseteq. split; [|done].
      apply singleton_subseteq_l, elem_of_dom. by exists i.
    - intros Hpos. destruct Hb as [->|(_ & -> & Hne)]; [by apply Hopen|].
      pose proof (size_add_one (data fsender) (byes st)).
      specialize (Hopen Hpos). lia. }
  assert (names st' = names st
          ∧ name_to_index st' = name_to_index st
          ∧ byes st' = byes st
          ∧ n_sims st' = n_sims st ∧ do_trace st' = do_trace st →
          registry_ok n tracing st') as Hsame.
  { intros (Hnames & Hmap & Hb & Hsame & Htr). unfold names in *.
    assert (length (simulators st') = length (simulators st)) as Hlen.
    { by rewrite <- (length_fmap name), Hnames, length_fmap. }
    split; rewrite ?Hmap, ?Hlen, ?Hb; unfold names; rewrite ?Hnames;
      try done; congruence. }
  destruct (decide (PUBLISH = data ftype)).
  { by intros ?%publish_names%Hsame. }
  destruct (decide (DIE = data ftype)).
  { unfold on_die, broker_die. by destruct (name_to_index st !! _). }
  destruct (decide (TIME_DELTA = data ftype)); [|done].
  by intros ?%time_delta_names%Hsame.
Qed.

Lemma reachable_registry_ok n tracing st :
  reachable n tracing st → registry_ok n tracing st.
Proof.
  induction 1 as [|st msg st' out _ IH Hstep].
  - apply registry_ok_init.
  - by eapply registry_ok_step.
Qed.

Lemma registry_names_NoDup n tracing st :
  registry_ok n tracing st → NoDup (names st).
Proof.
  intros Hok. apply NoDup_alt. intros i j nm Hi Hj.
  apply (registry_index _ _ _ Hok) in Hi, Hj. congruence.
Qed.

Lemma registry_byes_size n tracing st :
  registry_ok n tracing st →
  (size (byes st) ≤ length (simulators st))%nat.
Proof.
  intros Hok. rewrite <- (registry_size _ _ _ Hok), <- size_dom.
  apply subseteq_size, (registry_byes _ _ _ Hok).
Qed.
End Registry.

(** X1.  At every loop boundary the loop can reach, whatever the
    messages: [name_to_index] maps a name to [i] exactly when the record
    at index [i] has that name, so the names of the records are pairwise
    distinct and the index has as many entries as the vector has
    records; and [n_sims] and the tracing flag are those of the start. *)
Theorem reachable_index_is_inverse_of_names n tracing st :
  reachable n tracing st →
  (∀ nm i, name_to_index st !! nm = Some i
           ↔ name <$> simulators st !! i = Some nm)
  ∧ NoDup (name <$> simulators st)
  ∧ size (name_to_index st) = length (simulators st)
  ∧ n_sims st = n
  ∧ do_trace st = tracing.
Proof.
  intros Hok%reachable_registry_ok. split; [|split; [|split; [|split]]].
  - intros nm i. rewrite (registry_index _ _ _ Hok). unfold names.
    by rewrite list_lookup_fmap.
  - by eapply registry_names_NoDup.
  - by destruct Hok.
  - by destruct Hok.
  - by destruct Hok.
Qed.

(** X2.  At every reachable loop boundary the simulators that have said
    BYE are registered ones, so they are no more than the records of the
    vector, and, since the loop ends with the BYE that completes the set,
    fewer than [n_sims]. *)
Theorem reachable_byes_are_registered n tracing st :
  (0 < n)%nat →
  reachable n tracing st →
  (∀ nm, nm ∈ byes st → is_Some (name_to_index st !! nm))
  ∧ (size (byes st) ≤ length (simulators st))%nat
  ∧ (size (byes st) < n_sims st)%nat.
Proof.
  intros Hn Hok%reachable_registry_ok. split; [|split].
  - intros nm Hnm. apply elem_of_dom. by apply (registry_byes _ _ _ Hok).
  - by eapply registry_byes_size.
  - rewrite (registry_n_sims _ _ _ Hok).
    by apply (registry_byes_open _ _ _ Hok).
Qed.

(** ** The round, from any reachable loop boundary *)

Section ReachableRound.
Implicit Types (st mid : Broker).

Lemma account_counter st index (sims : SimVec) byes' out0 mid out :
  account st index sims byes' out0 = Continue mid out →
  n_processing mid = n_processing st - 1
  ∧ length (simulators mid) = length sims
  ∧ n_sims mid = n_sims st.
Proof.
  unfold account, update_sim.
  destruct (sims !! index) as [r|]; [|done]. simpl.
  destruct (decide _); [done|]. intros [= <- <-]. simpl.
  by rewrite length_insert.
Qed.

Lemma accounting_counter st sender message_type rest mid out0 :
  accounting st sender message_type rest = Continue mid out0 →
  n_processing mid = n_processing st - 1
  ∧ length (simulators mid) = length (simulators st)
  ∧ n_sims mid = n_sims st.
Proof.
  unfold accounting, broker_die.
  destruct (name_to_index st !! sender) as [index|]; [|done].
  destruct (decide (BYE = message_type)).
  - destruct (decide (size _ = _)); [by destruct (for_loop _ _ _)|].
    unfold update_sim at 1.
    destruct (simulators st !! index) as [r|]; [|done]. simpl.
    intros (Hc & Hl & Hs)%account_counter.
    by rewrite length_insert in Hl.
  - destruct (decide (TIME_REQUEST = message_type)).
    + destruct rest as [|f rest']; [done|].
      destruct (read_ull (data f)) as [t|]; [|done].
      unfold update_sim at 1.
      destruct (simulators st !! index) as [r|]; [|done]. simpl.
      intros (Hc & Hl & Hs)%account_counter.
      by rewrite length_insert in Hl.
    + by intros ?%account_counter.
Qed.

Lemma names_length (sims sims' : SimVec) :
  name <$> sims' = name <$> sims → length sims' = length sims.
Proof.
  intros Hnames.
  by rewrite <- (length_fmap name sims'), Hnames, length_fmap.
Qed.

(** While the vector holds fewer than [n_sims] records the counter has
    not been set: it is 0, or negative after answers that came early. *)
Lemma open_counter_step n st msg st' out :
  n_sims st = n →
  ((length (simulators st) < n)%nat → n_processing st <= 0) →
  step st msg = Continue st' out →
  (length (simulators st') < n)%nat → n_processing st' <= 0.
Proof.
  intros Hn Hopen. destruct msg as [|fsender [|ftype rest]]; [done..|].
  unfold step.
  destruct (decide (HELLO = data ftype)).
  { unfold on_hello, broker_die.
    destruct (decide (is_Some _)); [done|].
    destruct rest as [|f rest']; [done|].
    destruct (config f) as [cfg|]; [|done].
    destruct (decide (length _ = _)) as [Hclose|Hstill].
    - destruct (for_loop _ _ _) as [[sims o]|] eqn:Hloop; [|done].
      intros [= <- <-]. simpl. intros Hlt.
      apply ack_loop_names, names_length in Hloop. lia.
    - intros [= <- <-]. simpl. rewrite length_app. simpl.
      intros Hlt. apply Hopen. lia. }
  destruct (decide (TIME_REQUEST = data ftype ∨ BYE = data ftype)).
  { unfold on_time_request_or_bye.
    destruct (accounting _ _ _ _) as [mid out0| | |] eqn:Hacc; try done.
    apply accounting_counter in Hacc as (Hc & Hl & Hs).
    case_decide as Hz.
    - intros (Hnames%names_length & _)%grant_round_names Hlt.
      assert (n_processing st <= 0) by (apply Hopen; lia). lia.
    - intros [= <- <-] Hlt.
      assert (n_processing st <= 0) by (apply Hopen; lia). lia. }
  destruct (decide (PUBLISH = data ftype)).
  { unfold on_publish, fan_out, broker_die. intros Hstep Hlt.
    repeat (case_match; simplify_eq/=);
      match goal with
      | H : for_loop _ (publish_body _ _) _ = Some _ |- _ =>
          apply publish_loop_names, names_length in H
      end; apply Hopen; lia. }
  destruct (decide (DIE = data ftype)).
  { unfold on_die, broker_die. by destruct (name_to_index st !! _). }
  destruct (decide (TIME_DELTA = data ftype)); [|done].
  intros Hstep Hlt.
  pose proof (time_delta_names _ _ _ _ _ Hstep)
    as (Hnames%names_length & _).
  revert Hstep. unfold on_time_delta, broker_die.
  repeat case_match; try done. intros [= <- <-]. simpl in *.
  apply Hopen. lia.
Qed.

Lemma reachable_open_counter n tracing st :
  reachable n tracing st →
  (length (simulators st) < n)%nat → n_processing st <= 0.
Proof.
  induction 1 as [|st msg st' out Hreach IH Hstep]; [done|].
  apply (open_counter_step n st msg st' out); [|done..].
  by destruct (reachable_registry_ok _ _ _ Hreach).
Qed.

(** A round starts only once the vector holds the [n_sims] records it
    visits. *)
Lemma reachable_round_closed n tracing st sender message_type rest mid out0 :
  reachable n tracing st →
  accounting st sender message_type rest = Continue mid out0 →
  n_processing mid = 0 →
  n_sims mid = n ∧ (n ≤ length (simulators mid))%nat.
Proof.
  intros Hreach (Hc & Hl & Hs)%accounting_counter Hzero.
  pose proof (registry_n_sims _ _ _ (reachable_registry_ok _ _ _ Hreach))
    as Hn.
  split; [congruence|].
  destruct (decide (length (simulators st) < n)%nat) as [Hlt|]; [|lia].
  pose proof (reachable_open_counter _ _ _ Hreach Hlt). lia.
Qed.

Lemma reachable_round n tracing st fsender ftype rest mid out0 :
  0 < Z.of_nat n <= INT_MAX →
  reachable n tracing st →
  data ftype = TIME_REQUEST ∨ data ftype = BYE →
  accounting st (data fsender) (data ftype) rest = Continue mid out0 →
  n_processing mid = 0 →
  Forall (λ r, time_delta r ≠ 0) (take n (simulators mid)) →
  (n ≤ length (simulators mid))%nat
  ∧ ∃ granted,
      is_minimum granted (actionable <$> take n (simulators mid))
      ∧ step st (fsender :: ftype :: rest)
        = Continue
            (Mk n (byes mid)
                (Z.of_nat (length (granted_sims granted
                                     (take n (simulators mid)))))
                (done_todo (round_sim granted) n (simulators mid))
                (name_to_index mid) granted (do_trace mid))
            (out0 ++ (grant_message granted
                        <$> granted_sims granted
                              (take n (simulators mid)))).
Proof.
  intros Hn Hreach Htype Hacc Hzero Hdelta.
  destruct (reachable_round_closed _ _ _ _ _ _ _ _ Hreach Hacc Hzero)
    as [Hsims Hlen].
  split; [done|].
  destruct (grant_round_closed mid out0) as (granted & Hmin & Hround);
    rewrite ?Hsims; try done.
  rewrite Hsims in Hmin, Hround. exists granted. split; [done|].
  by rewrite (step_round_close _ _ _ _ _ _ Htype Hacc Hzero).
Qed.
End ReachableRound.

(** C1 (as amended).  From any loop boundary the loop can reach: when
    the accounting of a TIME_REQUEST or BYE leaves [n_processing] at 0,
    the vector holds at least [n_sims] records and the iteration returns
    to the poll with [time_granted] the least of the actionable times of
    the first [n_sims] records (none of which has a [time_delta] of 0;
    [n] below is [n_sims]),
    the actionable time of a record being
    [time_last_processed + time_delta] (in 64 bits) when its
    [messages_pending] is set and its [time_requested] otherwise.  A
    record after the first [n_sims] does not count. *)
Theorem time_granted_is_least_actionable
    n tracing st fsender ftype rest mid out0 :
  0 < Z.of_nat n <= INT_MAX →
  reachable n tracing st →
  data ftype = TIME_REQUEST ∨ data ftype = BYE →
  accounting st (data fsender) (data ftype) rest = Continue mid out0 →
  n_processing mid = 0 →
  Forall (λ r, time_delta r ≠ 0) (take n (simulators mid)) →
  ∃ st' out,
    step st (fsender :: ftype :: rest) = Continue st' out
    ∧ n_sims mid = n
    ∧ (n ≤ length (simulators mid))%nat
    ∧ is_minimum (time_granted st') (actionable <$> take n (simulators mid))
    ∧ ∀ r,
        actionable r
        = (if messages_pending r
           then (time_last_processed r + time_delta r) mod 2 ^ 64
           else time_requested r)
        ∧ (messages_pending r = true →
           0 <= time_last_processed r + time_delta r <= ULLONG_MAX →
           actionable r = time_last_processed r + time_delta r).
Proof.
  intros Hn Hreach Htype Hacc Hzero Hdelta.
  destruct (reachable_round n tracing st fsender ftype rest mid out0)
    as (Hlen & granted & Hmin & Hstep); try done.
  destruct (reachable_round_closed _ _ _ _ _ _ _ _ Hreach Hacc Hzero)
    as [Hsims _].
  eexists _, _. split; [exact Hstep|]. split; [done|].
  split; [done|]. split; [done|].
  intros r. split; [reflexivity|].
  intros Hpending Hsum. unfold actionable, add.
  rewrite Hpending. by apply wrap_small.
Qed.

(** C2 (as amended).  In that round, with [granted] the new
    [time_granted], for each of the first [n_sims] records: a record whose
    actionable time is [granted] gets [processing = true] and
    [messages_pending = false], its other fields as before, and is sent
    TIME_REQUEST with [granted]; [n_processing] counts these records; any
    other is sent nothing and has [time_last_processed] advanced by
    [k * time_delta], [k] the quotient of [granted - time_last_processed]
    by [time_delta] (in 64 bits; exactly so when the record is not ahead
    of [granted]), its other fields as before.  A record after the first
    [n_sims] is left as it is. *)
Theorem round_grants_or_fast_forwards
    n tracing st fsender ftype rest mid out0 :
  0 < Z.of_nat n <= INT_MAX →
  reachable n tracing st →
  data ftype = TIME_REQUEST ∨ data ftype = BYE →
  accounting st (data fsender) (data ftype) rest = Continue mid out0 →
  n_processing mid = 0 →
  Forall (λ r, time_delta r ≠ 0) (take n (simulators mid)) →
  ∃ st' out,
    step st (fsender :: ftype :: rest) = Continue st' out
    ∧ n_sims mid = n
    ∧ length (simulators st') = length (simulators mid)
    ∧ (∀ i r, simulators mid !! i = Some r → (i < n)%nat →
         actionable r = time_granted st' →
         simulators st' !! i
         = Some (Sim (name r) (time_requested r) (time_delta r)
                     (time_last_processed r) true false
                     (subscription_values r)))
    ∧ (∀ i r, simulators mid !! i = Some r → (i < n)%nat →
         actionable r ≠ time_granted st' →
         let k := ((time_granted st' - time_last_processed r) mod 2 ^ 64)
                  / time_delta r in
         let advanced :=
           (time_last_processed r + (time_delta r * k) mod 2 ^ 64)
           mod 2 ^ 64 in
         simulators st' !! i
         = Some (Sim (name r) (time_requested r) (time_delta r) advanced
                     (processing r) (messages_pending r)
                     (subscription_values r))
         ∧ (0 <= time_last_processed r <= time_granted st' →
            time_granted st' <= ULLONG_MAX → 0 < time_delta r →
            advanced
            = time_last_processed r
              + (time_granted st' - time_last_processed r)
                / time_delta r * time_delta r))
    ∧ (∀ i r, simulators mid !! i = Some r → (n ≤ i)%nat →
         simulators st' !! i = Some r)
    ∧ n_processing st'
      = Z.of_nat (length (filter (λ r, time_granted st' = actionable r)
                                 (take n (simulators mid))))
    ∧ out = out0
            ++ ((λ r, zmsg_send [c_str (name r); TIME_REQUEST;
                                 fmt_llu (time_granted st')])
                  <$> filter (λ r, time_granted st' = actionable r)
                             (take n (simulators mid))).
Proof.
  intros Hn Hreach Htype Hacc Hzero Hdelta.
  destruct (reachable_round n tracing st fsender ftype rest mid out0)
    as (Hlen & granted & Hmin & Hstep); try done.
  destruct (reachable_round_closed _ _ _ _ _ _ _ _ Hreach Hacc Hzero)
    as [Hsims _].
  eexists _, _. split; [exact Hstep|]. simpl. split; [done|].
  split; [apply length_done_todo|].
  split; [|split; [|split; [|split; [reflexivity|reflexivity]]]].
  - intros i r Hr Hi Hact. rewrite done_todo_lookup_lt, Hr by done.
    simpl. unfold round_sim. by rewrite decide_True by done.
  - intros i r Hr Hi Hact. split.
    + rewrite done_todo_lookup_lt, Hr by done.
      simpl. unfold round_sim. by rewrite decide_False by done.
    + intros Hlp Hmax Hpos.
      by rewrite <- (fast_forward_exact _ _ _ Hlp Hmax Hpos).
  - intros i r Hr Hi. by rewrite done_todo_lookup_ge.
Qed.

Section FatalPaths.
Implicit Types (st : Broker).

Lemma grant_round_not_die st out0 out : grant_round st out0 ≠ Die out.
Proof. unfold grant_round. by repeat case_match. Qed.

Lemma account_not_die st index sims byes' out0 out :
  account st index sims byes' out0 ≠ Die out.
Proof. unfold account. by repeat case_match. Qed.

Lemma fan_out_not_die st topic forwarded out0 out :
  fan_out st topic forwarded out0 ≠ Die out.
Proof. unfold fan_out. by repeat case_match. Qed.

Lemma accounting_die st sender message_type rest out :
  accounting st sender message_type rest = Die out →
  out = die_messages (simulators st).
Proof.
  unfold accounting, broker_die.
  repeat case_match; try done;
    try (by intros ?%account_not_die); by intros [= <-].
Qed.

Lemma handler_die st fsender ftype rest out :
  step st (fsender :: ftype :: rest) = Die out →
  out = die_messages (simulators st).
Proof.
  unfold step.
  destruct (decide (HELLO = data ftype)).
  { unfold on_hello, broker_die. repeat case_match; try done;
      by intros [= <-]. }
  destruct (decide (TIME_REQUEST = data ftype ∨ BYE = data ftype)).
  { unfold on_time_request_or_bye.
    destruct (accounting _ _ _ _) as [mid out0|out0|out0|] eqn:Hacc;
      try done.
    - case_decide; [by intros ?%grant_round_not_die|done].
    - intros [= <-]. by eapply accounting_die. }
  destruct (decide (PUBLISH = data ftype)).
  { unfold on_publish, broker_die.
    repeat case_match; try done;
      try (by intros ?%fan_out_not_die); by intros [= <-]. }
  destruct (decide (DIE = data ftype)).
  { unfold on_die, broker_die. by case_match; intros [= <-]. }
  destruct (decide (TIME_DELTA = data ftype)).
  { unfold on_time_delta, broker_die.
    repeat case_match; try done; by intros [= <-]. }
  unfold broker_die. by intros [= <-].
Qed.

(** What ends the loop with [return 0]. *)
Lemma return0_inv st msg out :
  step st msg = Return0 out →
  ∃ fsender ftype rest,
    msg = fsender :: ftype :: rest
    ∧ data ftype = BYE
    ∧ is_Some (name_to_index st !! data fsender)
    ∧ size ({[data fsender]} ∪ byes st) = n_sims st
    ∧ for_loop (n_sims st) (bye_body (simulators st))
               (bye_warnings st (data fsender)) = Some out.
Proof.
  destruct msg as [|fsender [|ftype rest]]; [done..|].
  unfold step. intros Hstep. exists fsender, ftype, rest.
  destruct (decide (HELLO = data ftype)).
  { revert Hstep. unfold on_hello, broker_die. by repeat case_match. }
  destruct (decide (TIME_REQUEST = data ftype ∨ BYE = data ftype)).
  2:{ revert Hstep.
      unfold on_publish, fan_out, on_die, on_time_delta, broker_die.
      by repeat case_match. }
  revert Hstep. unfold on_time_request_or_bye.
  destruct (accounting _ _ _ _) as [mid out0|out0|out0|] eqn:Hacc;
    [case_decide; [by intros ?%grant_round_not_return|done]| |done..].
  intros [= ->]. revert Hacc. unfold accounting, broker_die.
  destruct (name_to_index st !! data fsender) as [index|] eqn:Hindex;
    [|done].
  destruct (decide (BYE = data ftype)) as [Hbye|].
  2:{ repeat case_match; try done; by intros ?%account_not_return. }
  destruct (decide (size _ = _)) as [Hsize|].
  2:{ repeat case_match; try done; by intros ?%account_not_return. }
  destruct (for_loop _ _ _) as [sent|] eqn:Hloop; [|done].
  intros [= <-]. by eauto 10.
Qed.
End FatalPaths.

(** X3.  Every fatal path is the same broadcast: when an iteration ends
    in [broker_die], whatever the state and the message, the messages it
    has sent are DIE to each record of the vector, in order, and nothing
    else: every test that leads to [broker_die] comes before the first
    message, trace line or warning of its handler. *)
Theorem die_is_only_the_broadcast st msg out :
  step st msg = Die out →
  out = (λ r, zmsg_send [c_str (name r); DIE]) <$> simulators st.
Proof.
  destruct msg as [|fsender [|ftype rest]].
  - unfold step, broker_die. by intros [= <-].
  - unfold step, broker_die. by intros [= <-].
  - apply handler_die.
Qed.

(** X4.  A message that is not a HELLO, from an identity that is not in
    [name_to_index], is fatal whatever its type and its other frames:
    the broker sends DIE to every record and exits with failure. *)
Theorem stranger_is_fatal st fsender ftype rest :
  data ftype ≠ HELLO →
  name_to_index st !! data fsender = None →
  step st (fsender :: ftype :: rest)
  = Die ((λ r, zmsg_send [c_str (name r); DIE]) <$> simulators st).
Proof.
  intros Htype Hnone. unfold step.
  rewrite decide_False by done.
  unfold on_time_request_or_bye, accounting, on_publish, on_die,
    on_time_delta. rewrite Hnone.
  by repeat case_decide.
Qed.

(** X5.  A HELLO from a name that is already registered is fatal, with
    or without a payload, before or after registration has closed. *)
Theorem duplicate_hello_is_fatal st fsender ftype rest :
  data ftype = HELLO →
  is_Some (name_to_index st !! data fsender) →
  step st (fsender :: ftype :: rest)
  = Die ((λ r, zmsg_send [c_str (name r); DIE]) <$> simulators st).
Proof.
  intros Htype Hreg. rewrite step_hello by done.
  unfold on_hello. by rewrite decide_True.
Qed.


(** X7.  From every reachable loop boundary a second BYE of a simulator
    never ends the loop, and when the iteration returns to the poll the
    set [byes] is as before. *)
Theorem reachable_duplicate_bye_keeps_byes
    n tracing st fsender ftype rest :
  reachable n tracing st →
  data ftype = BYE →
  data fsender ∈ byes st →
  (∀ out, step st (fsender :: ftype :: rest) ≠ Return0 out)
  ∧ (∀ st' out, step st (fsender :: ftype :: rest) = Continue st' out →
                byes st' = byes st).
Proof.
  intros Hok%reachable_registry_ok Htype Hin. split.
  - intros out (f & t & r & [= <- <- <-] & _ & _ & Hsize & _)%return0_inv.
    assert ({[data fsender]} ∪ byes st = byes st) as Heq by set_solver.
    rewrite Heq in Hsize.
    assert (0 < n)%nat as Hpos.
    { rewrite <- (registry_n_sims _ _ _ Hok), <- Hsize.
      by apply (size_pos_of_elem (data fsender)). }
    pose proof (registry_byes_open _ _ _ Hok Hpos).
    rewrite (registry_n_sims _ _ _ Hok) in Hsize. lia.
  - intros st' out. rewrite step_answer by (by right).
    intros (_ & _ & _ & _ & _ & [->|(_ & -> & _)])%answer_names;
      [done|set_solver].
Qed.

(** ** Where the loops leave the vector or divide by zero *)

Section Edges.
Implicit Types (st mid : Broker) (sims : SimVec).

Lemma publish_loop_short topic forwarded n sims out :
  (length sims < n)%nat →
  for_loop n (publish_body topic forwarded) (sims, out) = None.
Proof.
  induction n as [|n IH]; intros Hn; [lia|].
  rewrite for_loop_S.
  destruct (decide (length sims < n)%nat) as [Hlt|Hge].
  - by rewrite IH.
  - rewrite publish_loop by lia. simpl.
    rewrite done_todo_lookup, lookup_ge_None_2 by lia. done.
Qed.

Lemma grant_loop_untouched granted ta n sims n_proc out sims' n_proc' out' :
  for_loop n (grant_body granted ta) (sims, n_proc, out)
  = Some (sims', n_proc', out') →
  ∀ j, (n ≤ j)%nat → sims' !! j = sims !! j.
Proof.
  apply (for_loop_invariant
           (λ k acc, ∀ j, (k ≤ j)%nat → acc.1.1 !! j = sims !! j));
    [done|].
  intros i [[s np] o] [[s' np'] o'] _ Hs. simpl in *.
  destruct (ta !! i) as [a|]; [|done]. simpl.
  destruct (decide (granted = a)).
  - destruct (decide (np = INT_MAX)); [done|].
    destruct (s !! i) as [r|]; [|done]. simpl. intros [= <- _ _] j Hj.
    rewrite list_lookup_insert_ne by lia. apply Hs. lia.
  - destruct (s !! i) as [r|]; [|done]. simpl.
    destruct (fast_forward granted r); [|done]. simpl.
    intros [= <- _ _] j Hj.
    rewrite list_lookup_insert_ne by lia. apply Hs. lia.
Qed.

Lemma grant_loop_zero_delta granted n sims n_proc out i r :
  (i < n)%nat → sims !! i = Some r →
  granted ≠ actionable r → time_delta r = 0 →
  for_loop n (grant_body granted (actionable <$> sims)) (sims, n_proc, out)
  = None.
Proof.
  intros Hi Hr Hne Hzero. induction n as [|n IH]; [lia|].
  rewrite for_loop_S.
  destruct (decide (i < n)%nat) as [Hlt|Hge]; [by rewrite IH|].
  assert (i = n) as -> by lia.
  destruct (for_loop n _ _) as [[[s np] o]|] eqn:Hloop; [|done].
  simpl. rewrite list_lookup_fmap, Hr. simpl.
  rewrite decide_False by done.
  rewrite (grant_loop_untouched _ _ _ _ _ _ _ _ _ Hloop n) by done.
  rewrite Hr. simpl. unfold fast_forward, div.
  by rewrite decide_True.
Qed.
End Edges.

(** X8.  Before registration has closed the fan-out of a PUBLISH leaves
    the vector: the loop runs over [n_sims] indices while the vector
    holds fewer records, so a PUBLISH with its frames from a registered
    simulator is undefined behaviour ([simulators[i]] out of range). *)
Theorem publish_before_closure_is_undefined
    st (fsender ftype ftopic : zframe) (rest : list zframe) :
  data ftype = PUBLISH →
  is_Some (name_to_index st !! data fsender) →
  (length (simulators st) < n_sims st)%nat →
  (do_trace st = true → rest ≠ []) →
  step st (fsender :: ftype :: ftopic :: rest) = Undefined.
Proof.
  intros Htype [index Hindex] Hopen Hvalue.
  rewrite step_publish by done. unfold on_publish, fan_out.
  rewrite Hindex.
  destruct (do_trace st).
  - destruct rest as [|fvalue rest]; [by destruct Hvalue|].
    by rewrite publish_loop_short.
  - by rewrite publish_loop_short.
Qed.

(** X9.  A delta of zero is not refused (TIME_DELTA stores whatever it
    reads) but a round divides by it: when the round runs and a record
    with [time_delta = 0] does not have the least actionable time, the
    fast-forward of that record divides by zero. *)
Theorem zero_delta_divides_by_zero
    st fsender ftype rest mid out0 i r r' :
  data ftype = TIME_REQUEST ∨ data ftype = BYE →
  accounting st (data fsender) (data ftype) rest = Continue mid out0 →
  n_processing mid = 0 →
  length (simulators mid) = n_sims mid →
  simulators mid !! i = Some r →
  time_delta r = 0 →
  r' ∈ simulators mid → actionable r' < actionable r →
  step st (fsender :: ftype :: rest) = Undefined.
Proof.
  intros Htype Hacc Hzero Hlen Hr Hdelta Hr' Hless.
  rewrite (step_round_close _ _ _ _ _ _ Htype Hacc Hzero).
  unfold grant_round.
  rewrite fill_time_actionable_take, take_ge by lia.
  destruct (min_element _) as [granted|] eqn:Hmin; [|done].
  apply min_element_is_minimum in Hmin as [_ Hleast].
  rewrite Forall_fmap in Hleast.
  assert (granted <= actionable r') as Hle.
  { apply list_elem_of_lookup in Hr' as [j Hj].
    exact (Forall_lookup_1 _ _ _ _ Hleast Hj). }
  rewrite (grant_loop_zero_delta _ _ _ _ _ i r); [done| |done|lia|done].
  rewrite <- Hlen. by eapply lookup_lt_Some.
Qed.

(** X10.  A round never leaves the broker waiting for nobody: in the
    running phase the round that a TIME_REQUEST or BYE starts grants at
    least one simulator, so [n_processing] is at least 1 afterwards and
    a TIME_REQUEST with the granted time has been sent. *)
Theorem round_grants_someone st fsender ftype rest mid out0 :
  data ftype = TIME_REQUEST ∨ data ftype = BYE →
  accounting st (data fsender) (data ftype) rest = Continue mid out0 →
  n_processing mid = 0 →
  running mid →
  ∃ st' out r,
    step st (fsender :: ftype :: rest) = Continue st' out
    ∧ 1 <= n_processing st'
    ∧ r ∈ simulators mid
    ∧ actionable r = time_granted st'
    ∧ zmsg_send [c_str (name r); TIME_REQUEST; fmt_llu (time_granted st')]
      ∈ out.
Proof.
  intros Htype Hacc Hzero Hrun.
  destruct (grant_round_running mid out0 Hrun Hzero)
    as (granted & [Hin _] & Hround).
  apply list_elem_of_fmap in Hin as (r & Hgr & Hr).
  assert (r ∈ granted_sims granted (simulators mid)) as Hgranted.
  { unfold granted_sims. by apply list_elem_of_filter. }
  eexists _, _, r. split.
  { rewrite (step_round_close _ _ _ _ _ _ Htype Hacc Hzero). exact Hround. }
  simpl. split; [|split; [done|split; [done|]]].
  - destruct (granted_sims granted (simulators mid));
      [by apply elem_of_nil in Hgranted|]. simpl. lia.
  - apply elem_of_app. right.
    apply list_elem_of_fmap. by exists r.
Qed.

(** X11.  The fast-forward of lines 419-420 moves [time_last_processed]
    to its last tick that is not after the granted time: for a record
    that is not ahead of [granted] and has a positive delta, the new
    value is the old one plus a multiple of the delta, is at most
    [granted], and is less than one delta before it; no other field
    changes. *)
Theorem fast_forward_reaches_last_tick granted r :
  0 <= time_last_processed r <= granted →
  granted <= ULLONG_MAX →
  0 < time_delta r →
  ∃ k,
    0 <= k
    ∧ fast_forward granted r
      = Some (set_time_last_processed
                (time_last_processed r + k * time_delta r) r)
    ∧ time_last_processed r + k * time_delta r <= granted
    ∧ granted < time_last_processed r + k * time_delta r + time_delta r.
Proof.
  intros Hlp Hmax Hdelta.
  exists ((granted - time_last_processed r) / time_delta r).
  pose proof (Z.div_mod (granted - time_last_processed r) (time_delta r))
    as Hdm.
  pose proof (Z.mod_pos_bound (granted - time_last_processed r)
                              (time_delta r) Hdelta) as Hmod.
  assert (0 <= (granted - time_last_processed r) / time_delta r)
    by (apply Z.div_pos; lia).
  split; [done|]. split; [|split; nia].
  unfold fast_forward, div. rewrite decide_False by lia. simpl.
  by rewrite fast_forward_exact by lia.
Qed.

(** ** Runs of simulators that keep to the protocol, continued *)

Section Defined.
Implicit Types (st mid : Broker).

Lemma count_processing_le_length (sims : SimVec) :
  count_processing sims <= Z.of_nat (length sims).
Proof.
  unfold count_processing.
  pose proof (length_filter (λ r, processing r = true) sims). lia.
Qed.

Lemma holds_grant_closed st sender :
  consistent st → holds_grant st sender →
  length (simulators st) = n_sims st ∧ 1 <= n_processing st.
Proof.
  intros [Hsize Hn Hreg Hcount _ _] (index & r & _ & Hr & Hp).
  pose proof (count_processing_lookup _ _ _ Hr Hp) as Hone.
  split; [|lia].
  destruct (decide (length (simulators st) < n_sims st)%nat) as [Hlt|];
    [|lia].
  destruct (Hreg Hlt). lia.
Qed.

Lemma accounting_defined st sender message_type rest :
  consistent st →
  message_type = TIME_REQUEST ∨ message_type = BYE →
  holds_grant st sender →
  (message_type = TIME_REQUEST →
   ∀ f rest', rest = f :: rest' → is_Some (read_ull (data f))) →
  accounting st sender message_type rest ≠ Undefined.
Proof.
  intros Hc Htype Hgrant Hread.
  destruct (holds_grant_closed _ _ Hc Hgrant) as [Hlen Hone].
  destruct Hgrant as (index & r & Hindex & Hr & Hp).
  pose proof (lookup_lt_Some _ _ _ Hr) as Hlt.
  assert (n_processing st ≠ INT_MIN) as Hmin by (unfold INT_MIN; lia).
  unfold accounting. rewrite Hindex.
  destruct Htype as [-> | ->].
  - rewrite decide_False by done. rewrite decide_True by done.
    destruct rest as [|f rest']; [done|].
    destruct (Hread eq_refl f rest' eq_refl) as [t ->].
    unfold update_sim at 1. rewrite Hr. simpl.
    by rewrite (account_at _ _ _ (set_time_requested t r))
      by (by rewrite ?list_lookup_insert_eq).
  - rewrite decide_True by done.
    destruct (decide (size _ = _)); [by rewrite bye_loop by lia|].
    unfold update_sim at 1. rewrite Hr. simpl.
    by rewrite (account_at _ _ _ (set_time_requested ULLONG_MAX r))
      by (by rewrite ?list_lookup_insert_eq).
Qed.

Lemma answer_defined st fsender ftype rest :
  consistent st →
  data ftype = TIME_REQUEST ∨ data ftype = BYE →
  holds_grant st (data fsender) →
  (data ftype = TIME_REQUEST →
   ∀ f rest', rest = f :: rest' →
     ∃ t, read_ull (data f) = Some t ∧ time_granted st <= t) →
  on_time_request_or_bye st (data fsender) (data ftype) rest ≠ Undefined.
Proof.
  intros Hc Htype Hgrant Hread.
  assert (data ftype = TIME_REQUEST →
          ∀ f rest' t, rest = f :: rest' → read_ull (data f) = Some t →
                       time_granted st <= t) as Hreq.
  { intros Ht f rest' t Hrest Hf.
    destruct (Hread Ht f rest' Hrest) as (t' & Hf' & Hle). congruence. }
  unfold on_time_request_or_bye.
  assert (accounting st (data fsender) (data ftype) rest ≠ Undefined)
    as Hdef.
  { apply accounting_defined; try done.
    intros Ht f rest' Hrest.
    destruct (Hread Ht f rest' Hrest) as (t & Hf & _). by exists t. }
  destruct (accounting _ _ _ _) as [mid out0| | |] eqn:Hacc; try done.
  destruct (consistent_accounting _ _ _ _ _ _ Hc Htype Hgrant Hreq Hacc)
    as ([Hsize Hn Hreg Hcount [Hg Hbound] Hrec] & Htime & Hlen).
  case_decide; [|done].
  assert (running mid) as Hrun.
  { split; [done|]. split; [done|].
    eapply Forall_impl; [exact Hrec|]. intros r (? & _). lia. }
  destruct (grant_round_running mid out0 Hrun (eq_sym H)) as (? & _ & ->).
  done.
Qed.

Lemma conforming_step_defined st msg :
  consistent st → conforming st msg → step st msg ≠ Undefined.
Proof.
  intros Hc Hconf.
  destruct Hconf as
    [fsender ftype f rest cfg Htype Hopen Hcfg Hdelta
    |fsender ftype f rest t Htype Hgrant Hread Hreq
    |fsender ftype rest Htype Hgrant
    |fsender ftype f rest d Htype (index & r & Hindex & Hr & Hp) Hread Hdelta
    |fsender ftype rest Htype Hclosed].
  - rewrite step_hello by done.
    destruct (name_to_index st !! data fsender) as [i|] eqn:Hfresh.
    { unfold on_hello. rewrite Hfresh. by rewrite decide_True. }
    rewrite (on_hello_admits _ _ _ _ _ Hfresh Hcfg). simpl.
    by destruct (decide _).
  - rewrite step_answer by (by left).
    apply answer_defined; try done; [by left|].
    intros _ ? ? [= <- <-]. by exists t.
  - rewrite step_answer by (by right).
    apply answer_defined; try done; [by right|].
    rewrite Htype. by intros [=].
  - rewrite step_time_delta by done.
    unfold on_time_delta, update_sim. by rewrite Hindex, Hread, Hr.
  - rewrite step_publish by done. unfold on_publish.
    destruct (name_to_index st !! data fsender); [|done].
    destruct rest as [|ftopic rest']; [done|].
    destruct (do_trace st); [destruct rest' as [|fvalue rest'']; [done|]|];
      by rewrite fan_out_running.
Qed.
End Defined.

(** X12.  At every loop boundary of a run in which the simulators keep
    to the protocol: the registry holds at most [n_sims] records,
    [n_processing] is the number of records marked processing, no record
    is ahead of the granted time, and a record that is not processing
    has its next tick after the granted time. *)
Theorem conforming_run_keeps_count_and_clock n tracing st :
  0 < Z.of_nat n <= INT_MAX →
  conforming_run (init n tracing) st →
  (length (simulators st) ≤ n_sims st)%nat
  ∧ n_processing st = count_processing (simulators st)
  ∧ 0 <= n_processing st <= Z.of_nat (n_sims st)
  ∧ Forall (λ r, 0 <= time_last_processed r <= time_granted st
                 ∧ (processing r = false →
                    time_granted st
                    < time_last_processed r + time_delta r))
           (simulators st).
Proof.
  intros Hn Hrun.
  destruct (consistent_run _ _ (consistent_init n tracing Hn) Hrun)
    as [[Hsize _ _ Hcount _ Hrec] _].
  split; [done|]. split; [done|]. split.
  - rewrite Hcount.
    pose proof (count_processing_nonneg (simulators st)).
    pose proof (count_processing_le_length (simulators st)). lia.
  - eapply Forall_impl; [exact Hrec|].
    intros r (_ & Hlp & Hidle). split; [done|].
    intros Hp. by destruct (Hidle Hp).
Qed.

(** X13.  In a run in which the simulators keep to the protocol the
    broker never runs into undefined behaviour: from every loop boundary
    of such a run a conforming message (its time frame, if it has one,
    is not blank) is handled without reading a local that was not
    written, reading past the vector, dividing by zero or overflowing
    the counter. *)
Theorem conforming_run_is_defined n tracing st msg :
  0 < Z.of_nat n <= INT_MAX →
  conforming_run (init n tracing) st →
  conforming st msg →
  step st msg ≠ Undefined.
Proof.
  intros Hn Hrun Hconf.
  destruct (consistent_run _ _ (consistent_init n tracing Hn) Hrun)
    as [Hc _].
  by apply conforming_step_defined.
Qed.

(** ** TIME_DELTA and PUBLISH, twice *)

(** X14.  Of two TIME_DELTA messages of the same simulator the later one
    wins: handling the second after the first gives the outcome of
    handling the second alone, and the same message a second time
    changes nothing. *)
Theorem time_delta_last_one_wins
    st fsender ftype f1 rest1 f2 rest2 st1 out1 :
  data ftype = TIME_DELTA →
  step st (fsender :: ftype :: f1 :: rest1) = Continue st1 out1 →
  step st1 (fsender :: ftype :: f2 :: rest2)
  = step st (fsender :: ftype :: f2 :: rest2)
  ∧ step st1 (fsender :: ftype :: f1 :: rest1) = Continue st1 [].
Proof.
  intros Htype. rewrite !step_time_delta by done.
  unfold on_time_delta, update_sim, broker_die.
  destruct (name_to_index st !! data fsender) as [index|] eqn:Hindex;
    [|done].
  destruct (read_ull (data f1)) as [d1|]; [|done].
  destruct (simulators st !! index) as [r|] eqn:Hr; [|done].
  simpl. intros [= <- <-]. simpl. rewrite Hindex.
  rewrite list_lookup_insert_eq by by eapply lookup_lt_Some.
  simpl. split; [|by rewrite list_insert_insert_eq].
  destruct (read_ull (data f2)); [|done].
  by rewrite list_insert_insert_eq.
Qed.

(** X15.  A PUBLISH handled a second time, in the running phase, sends
    the same messages to the same simulators and leaves the variables
    as the first left them: the flag [messages_pending] is set, not
    counted. *)
Theorem publish_twice_is_publish_once
    st (fsender ftype ftopic : zframe) (rest : list zframe) :
  data ftype = PUBLISH →
  is_Some (name_to_index st !! data fsender) →
  length (simulators st) = n_sims st →
  (do_trace st = true → rest ≠ []) →
  ∃ st' out,
    step st (fsender :: ftype :: ftopic :: rest) = Continue st' out
    ∧ step st' (fsender :: ftype :: ftopic :: rest) = Continue st' out.
Proof.
  intros Htype [index Hindex] Hlen Hvalue.
  assert (∀ st0, name_to_index st0 = name_to_index st →
            length (simulators st0) = n_sims st0 →
            do_trace st0 = do_trace st →
            step st0 (fsender :: ftype :: ftopic :: rest)
            = Continue
                (with_simulators st0
                   (deliver (data ftopic) <$> simulators st0))
                (publish_trace st0 (data ftopic) rest
                 ++ (forward_message (data <$> ftype :: ftopic :: rest)
                       <$> subscribers (data ftopic) (simulators st0))))
    as Hstep.
  { intros st0 Hmap Hlen0 Htrace. rewrite step_publish by done.
    unfold on_publish, publish_trace. rewrite Hmap, Hindex, Htrace.
    destruct (do_trace st).
    - destruct rest as [|fvalue rest']; [by destruct Hvalue|].
      by rewrite fan_out_running.
    - rewrite fan_out_running by done. by destruct rest. }
  eexists _, _. split; [by apply Hstep|].
  rewrite Hstep; [|done|by simpl; rewrite length_fmap|done].
  assert (∀ sims : SimVec,
            deliver (data ftopic) <$> (deliver (data ftopic) <$> sims)
            = deliver (data ftopic) <$> sims) as Hidem.
  { intros sims. rewrite <- list_fmap_compose. apply list_fmap_ext.
    intros _ r _. simpl. unfold deliver.
    destruct (decide (data ftopic ∈ subscription_values r)); simpl;
      [by rewrite decide_True|by rewrite decide_False]. }
  assert (∀ sims : SimVec,
            subscribers (data ftopic) (deliver (data ftopic) <$> sims)
            = deliver (data ftopic) <$> subscribers (data ftopic) sims)
    as Hsubs.
  { intros sims. unfold subscribers.
    induction sims as [|r sims IH]; [done|].
    assert (subscription_values (deliver (data ftopic) r)
            = subscription_values r) as Hvalues
      by (unfold deliver; by destruct (decide _)).
    rewrite fmap_cons, !filter_cons. cbv beta. rewrite Hvalues, IH.
    by destruct (decide (data ftopic ∈ subscription_values r)). }
  unfold with_simulators. simpl. rewrite Hidem, Hsubs.
  f_equal. unfold publish_trace. simpl. f_equal.
  rewrite <- list_fmap_compose. apply list_fmap_ext.
  intros _ r _. simpl. unfold forward_message, deliver.
  by destruct (decide _).
Qed.

(** ** Numbers on the command line and on the wire *)

Section Numbers.

Lemma digit_of_range a d : digit_of a = Some d → 0 <= d <= 9.
Proof.
  unfold digit_of. case_bool_decide; [|done]. intros [= <-]. lia.
Qed.

Lemma read_digits_nonneg s acc v :
  (∀ a, acc = Some a → 0 <= a) →
  read_digits s acc = Some v → 0 <= v.
Proof.
  revert acc. induction s as [|c s IH]; intros acc Hacc; simpl.
  - by apply Hacc.
  - destruct (digit_of c) as [d|] eqn:Hd; [|by apply Hacc].
    apply IH. intros a [= <-].
    apply digit_of_range in Hd.
    destruct acc as [a0|]; simpl; [|lia].
    specialize (Hacc a0 eq_refl). lia.
Qed.

Lemma read_int_range s : INT_MIN <= read_int s <= INT_MAX.
Proof.
  unfold read_int.
  destruct (match skipws s with
            | String "-" s' => (true, s')
            | String "+" s' => (false, s')
            | _ => (false, skipws s)
            end) as [negative s2].
  destruct (read_digits s2 None) as [v|] eqn:Hv;
    [|unfold INT_MIN, INT_MAX; lia].
  apply read_digits_nonneg in Hv; [|done].
  destruct negative; case_bool_decide; unfold INT_MIN, INT_MAX in *; lia.
Qed.

Lemma digit_of_pretty d :
  (d < 10)%N → digit_of (pretty_N_char d) = Some (Z.of_N d).
Proof.
  intros Hd.
  assert (d = 0 ∨ d = 1 ∨ d = 2 ∨ d = 3 ∨ d = 4 ∨ d = 5 ∨ d = 6
          ∨ d = 7 ∨ d = 8 ∨ d = 9)%N as Hcases by lia.
  by repeat destruct Hcases as [->|Hcases]; [..|subst d].
Qed.

Lemma read_digits_pretty x s :
  (0 < x)%N →
  read_digits (pretty_N_go x s) None = read_digits s (Some (Z.of_N x)).
Proof.
  revert s. induction (N.lt_wf_0 x) as [x _ IH]. intros s Hx.
  rewrite pretty_N_go_step by done.
  pose proof (N.mod_lt x 10 ltac:(done)) as Hmod.
  pose proof (N.div_mod x 10 ltac:(done)) as Hdiv.
  destruct (decide (x `div` 10 = 0)%N) as [Hz|Hnz].
  - rewrite Hz, pretty_N_go_0. simpl.
    rewrite digit_of_pretty by done. simpl. do 2 f_equal. lia.
  - rewrite IH; [|by apply N.div_lt|lia]. simpl.
    rewrite digit_of_pretty by done. simpl. do 2 f_equal. lia.
Qed.

Lemma pretty_starts_with_digit x s :
  (0 < x)%N →
  ∃ d s', (d < 10)%N ∧ pretty_N_go x s = String (pretty_N_char d) s'.
Proof.
  revert s. induction (N.lt_wf_0 x) as [x _ IH]. intros s Hx.
  rewrite pretty_N_go_step by done.
  pose proof (N.mod_lt x 10 ltac:(done)) as Hmod.
  destruct (decide (x `div` 10 = 0)%N) as [Hz|Hnz].
  - rewrite Hz, pretty_N_go_0. by eexists _, _.
  - apply IH; [by apply N.div_lt|by apply N.neq_0_lt_0].
Qed.

Lemma read_ull_unsigned d s :
  (d < 10)%N →
  read_ull (String (pretty_N_char d) s)
  = Some match read_digits (String (pretty_N_char d) s) None with
         | None => 0
         | Some v => if bool_decide (ULLONG_MAX < v) then ULLONG_MAX else v
         end.
Proof.
  intros Hd.
  assert (d = 0 ∨ d = 1 ∨ d = 2 ∨ d = 3 ∨ d = 4 ∨ d = 5 ∨ d = 6
          ∨ d = 7 ∨ d = 8 ∨ d = 9)%N as Hcases by lia.
  by repeat destruct Hcases as [->|Hcases]; [..|subst d].
Qed.
End Numbers.

(** X16.  The loop is entered only with a number of simulators between
    1 and [INT_MAX]: whatever stands on the command line, [main] either
    exits with [EXIT_FAILURE] or starts from the empty registry with
    that number, tracing only if the trace file opened. *)
Theorem startup_enters_with_n_sims_in_range env st endpoint paced :
  startup env = LoopEntered st endpoint paced →
  ∃ n, st = init n (wants_trace (FNCS_TRACE env))
       ∧ 0 < Z.of_nat n <= INT_MAX
       ∧ Z.of_nat n = read_int (default "" (argv env !! 1%nat))
       ∧ (2 ≤ length (argv env) ≤ 3)%nat
       ∧ (do_trace st = true → trace_opens env = true).
Proof.
  unfold startup.
  pose proof (read_int_range (default "" (argv env !! 1%nat))) as Hrange.
  repeat case_decide; try done;
  destruct (wants_trace (FNCS_TRACE env)) eqn:Htrace,
    (trace_opens env) eqn:Hopens,
    (socket_made env), (socket_resolves env); simpl; try done;
    intros [= <- _ _];
    (eexists; split; [reflexivity|]; simpl; repeat split; try lia; done).
Qed.

(** X17.  A time printed with [%llu], as in a grant, is read back by
    [istringstream >> unsigned long long], as from a TIME_REQUEST, as the
    same time. *)
Theorem printed_time_reads_back (t : time) :
  0 <= t <= ULLONG_MAX → read_ull (fmt_llu t) = Some t.
Proof.
  intros Ht. unfold fmt_llu, pretty, pretty_N.
  case_decide as Hz.
  - assert (t = 0) as -> by lia. done.
  - assert (0 < Z.to_N t)%N as Hpos by lia.
    destruct (pretty_starts_with_digit _ "" Hpos) as (d & s' & Hd & Hs).
    rewrite Hs, read_ull_unsigned by done.
    rewrite <- Hs, read_digits_pretty by done. simpl.
    rewrite Z2N.id by lia. by rewrite bool_decide_false by lia.
Qed.

(** ** Where the messages go *)

Section Addressed.
Implicit Types (sims : SimVec) (st mid : Broker).















End Addressed.


(** ** Runs and reachable loop boundaries *)

Lemma reachable_run n tracing st msgs st' out :
  reachable n tracing st →
  run st msgs = (Polling st', out) →
  reachable n tracing st'.
Proof.
  revert st out. induction msgs as [|msg msgs IH]; intros st out Hst; simpl.
  - by intros [= <- _].
  - destruct (step st msg) as [mid sent| | |] eqn:Hstep; try done.
    destruct (run mid msgs) as [s more] eqn:Hrun. intros [= -> _].
    eapply IH; [|exact Hrun]. by eapply reachable_step.
Qed.

(** ** The statements on concrete runs *)

Module Scenarios.
Import Examples.

Lemma two_sims_both_done_running : running two_sims_both_done.
Proof.
  split; [reflexivity|]. split; [by vm_compute|].
  repeat constructor; discriminate.
Qed.

Lemma two_sims_reached : reachable 2 false two_sims.
Proof.
  eapply (reachable_run 2 false (init 2 false)
            [hello "A" 1 ["x"]; hello "B" 2 []]);
    [apply reachable_init|by vm_compute].
Qed.

Lemma uneven_a_done_reached : reachable 2 false uneven_a_done.
Proof.
  eapply (reachable_run 2 false (init 2 false)
            [hello "A" 3 []; hello "B" 2 []; time_request "A" "99"]);
    [apply reachable_init|by vm_compute].
Qed.


(** A of delta 3 has asked for 99 and B of delta 2 asks for 50: the
    round grants 50, the lesser. *)
Lemma least_actionable :
  ∃ st' out,
    step uneven_a_done (time_request "B" "50") = Continue st' out
    ∧ actionable <$> take 2 (simulators uneven_both_done) = [99; 50]
    ∧ time_granted st' = 50.
Proof.
  destruct (time_granted_is_least_actionable 2 false uneven_a_done
              (frame "B") (frame TIME_REQUEST) [frame "50"]
              uneven_both_done [])
    as (st' & out & Hstep & _ & _ & [_ Hleast] & _).
  - by vm_compute.
  - exact uneven_a_done_reached.
  - by left.
  - by vm_compute.
  - by vm_compute.
  - repeat constructor; discriminate.
  - exists st', out. split; [done|]. split; [by vm_compute|].
    vm_compute in Hstep. by injection Hstep as <- <-.
Defined.

(** In that round B is granted and A, which is not, is fast-forwarded
    from 0 to 48, the last multiple of 3 that is not after 50. *)
Lemma grants_or_fast_forwards :
  ∃ st' out,
    step uneven_a_done (time_request "B" "50") = Continue st' out
    ∧ simulators st' !! 0%nat = Some (Sim "A" 99 3 48 false false ∅)
    ∧ simulators st' !! 1%nat = Some (Sim "B" 50 2 0 true false ∅)
    ∧ n_processing st' = 1
    ∧ out = [zmsg_send ["B"; TIME_REQUEST; "50"]].
Proof.
  destruct (round_grants_or_fast_forwards 2 false uneven_a_done
              (frame "B") (frame TIME_REQUEST) [frame "50"]
              uneven_both_done [])
    as (st' & out & Hstep & _ & _ & Hgranted & Hforward & _ & Hcount
        & Hout).
  - by vm_compute.
  - exact uneven_a_done_reached.
  - by left.
  - by vm_compute.
  - by vm_compute.
  - repeat constructor; discriminate.
  - exists st', out. split; [done|].
    assert (time_granted st' = 50) as Hgr
      by (vm_compute in Hstep; by injection Hstep as <- <-).
    rewrite Hgr in *. split; [|split; [|split]].
    + destruct (Hforward 0%nat (Sim "A" 99 3 0 false false ∅))
        as [-> _]; [by vm_compute|lia|by vm_compute|by vm_compute].
    + rewrite (Hgranted 1%nat (Sim "B" 50 2 0 false false ∅));
        [by vm_compute|by vm_compute|lia|by vm_compute].
    + rewrite Hcount. by vm_compute.
    + rewrite Hout. by vm_compute.
Defined.

Lemma publish_to_subscriber :
  ∃ st' out,
    step two_sims (publish "B" "x" "42") = Continue st' out
    ∧ out = [zmsg_send ["A"; PUBLISH; "x"; "42"]]
    ∧ messages_pending <$> simulators st' = [true; false].
Proof.
  destruct (publish_reaches_exactly_the_subscribers two_sims
              (frame "B") (frame PUBLISH) (frame "x") [frame "42"])
    as (st' & out & Hstep & Hout & _).
  - reflexivity.
  - exists 1%nat. by vm_compute.
  - vm_compute. lia.
  - done.
  - exists st', out. split; [done|].
    split; [rewrite Hout; by vm_compute|].
    vm_compute in Hstep. by injection Hstep as <- <-.
Defined.


Lemma time_request_without_time_dies :
  step two_sims [frame "A"; frame TIME_REQUEST]
  = Die [zmsg_send ["A"; DIE]; zmsg_send ["B"; DIE]].
Proof.
  apply (proj1 (malformed_message_dies two_sims
                  [frame "A"; frame TIME_REQUEST])).
  right. left. by split.
Defined.

Lemma time_delta_keeps_subscriptions :
  keeps_subscriptions
    (simulators two_sims)
    (simulators (after 2 [hello "A" 1 ["x"]; hello "B" 2 [];
                          time_delta_msg "A" "5"])).
Proof.
  apply (subscriptions_fixed_and_time_delta_frame two_sims
           (time_delta_msg "A" "5") _ []).
  by vm_compute.
Defined.

(** With one expected simulator registered, a second HELLO is admitted
    and changes neither the counter nor the first record, and no ACK is
    sent. *)
Lemma late_hello_admitted :
  ∃ st' out,
    step (after 1 [hello "A" 1 []]) (hello "B" 1 []) = Continue st' out
    ∧ length (simulators st') = 2%nat
    ∧ n_processing st' = 1
    ∧ out = [].
Proof.
  destruct (hello_is_admitted_at_any_size (after 1 [hello "A" 1 []])
              (frame "B") (frame HELLO)
              (Zframe "config" (Some (Zconfig (Some 1) (Some []))))
              [] (Zconfig (Some 1) (Some [])))
    as (st' & out & Hstep & Hlen & _ & _ & _ & _ & _ & _ & _ & Hlate).
  - reflexivity.
  - by vm_compute.
  - reflexivity.
  - destruct Hlate as (Hcount & _ & Hout); [by vm_compute|].
    exists st', out. split; [done|]. split; [done|].
    split; [by rewrite Hcount|by rewrite Hout].
Defined.

(** C1, counterexample.  With one expected simulator, B registers after
    A: when A asks for the time 10 the round grants 10, although the
    registered B has the actionable time 0. *)
Lemma late_record_below_time_granted :
  ∃ st out r,
    run (init 1 false)
        [hello "A" 1 []; hello "B" 1 []; time_request "A" "10"]
    = (Polling st, out)
    ∧ name_to_index st !! "B" = Some 1%nat
    ∧ simulators st !! 1%nat = Some r
    ∧ actionable r = 0
    ∧ time_granted st = 10
    ∧ ¬ is_minimum (time_granted st) (actionable <$> simulators st).
Proof.
  eexists _, _, _. split; [by vm_compute|]. split; [by vm_compute|].
  split; [by vm_compute|]. split; [by vm_compute|].
  split; [by vm_compute|].
  intros [_ Hleast]. vm_compute in Hleast.
  apply Forall_cons in Hleast as [_ Hleast].
  apply Forall_cons in Hleast as [Hle _]. by apply Hle.
Qed.

(** C2, counterexample.  In such a round the registered B, of delta 2,
    is neither granted nor fast-forwarded: its [time_last_processed]
    stays 0, where [k * time_delta] is 10. *)
Lemma late_record_not_fast_forwarded :
  ∃ st out r,
    run (init 1 false)
        [hello "A" 1 []; hello "B" 2 []; time_request "A" "10"]
    = (Polling st, out)
    ∧ name_to_index st !! "B" = Some 1%nat
    ∧ simulators st !! 1%nat = Some r
    ∧ time_granted st = 10
    ∧ actionable r ≠ time_granted st
    ∧ processing r = false
    ∧ time_last_processed r = 0
    ∧ (time_granted st - 0) / time_delta r * time_delta r = 10.
Proof.
  eexists _, _, _. split; [by vm_compute|]. split; [by vm_compute|].
  split; [by vm_compute|]. by vm_compute.
Qed.

(** C3, counterexample.  With one expected simulator, B registers after
    A with a subscription to x: a PUBLISH of x by A is forwarded to
    nobody and B's record is not marked. *)
Lemma late_subscriber_is_skipped :
  ∃ st r st',
    run (init 1 false) [hello "A" 1 []; hello "B" 1 ["x"]]
    = (Polling st, [zmsg_send ["A"; ACK; "0"; "1"]])
    ∧ name_to_index st !! "B" = Some 1%nat
    ∧ simulators st !! 1%nat = Some r
    ∧ "x" ∈ subscription_values r
    ∧ step st (publish "A" "x" "42") = Continue st' []
    ∧ messages_pending <$> simulators st' !! 1%nat = Some false.
Proof.
  eexists _, _, _. split; [by vm_compute|]. split; [by vm_compute|].
  split; [by vm_compute|]. split; [by vm_compute|].
  split; by vm_compute.
Qed.


(** C5, counterexample.  With one expected simulator, a second HELLO
    is admitted: the vector holds two records. *)
Lemma registry_exceeds_n_sims :
  ∃ st', run (init 1 false) [hello "A" 1 []; hello "B" 1 []]
         = (Polling st',
            [zmsg_send ["A"; ACK; "0"; "1"]])
         ∧ n_sims st' = 1%nat
         ∧ length (simulators st') = 2%nat.
Proof. eexists. split; [by vm_compute|]. by vm_compute. Qed.

(** C4, the code at the failing input.  With three simulators running
    and A having said BYE, a second BYE of A is warned about and then
    accounted like the first: the counter goes from 2 to 1, while two
    records are still marked processing. *)
Lemma duplicate_bye_is_accounted_again :
  ∃ st', step three_sims_a_bye (bye "A")
         = Continue st' [WARN "duplicate BYE from 'A'"]
         ∧ "A" ∈ byes three_sims_a_bye
         ∧ n_processing three_sims_a_bye = 2
         ∧ n_processing st' = 1
         ∧ count_processing (simulators st') = 2.
Proof.
  eexists. split; [by vm_compute|].
  split; [|by vm_compute]. by vm_compute.
Qed.

(** C9, counterexample.  A TIME_REQUEST whose time frame is not a
    number is accounted, here with the time 0, and without tracing a
    PUBLISH that has no value frame is forwarded as it is: no DIE in
    either case. *)
Lemma invalid_frames_accepted :
  (∃ st', step two_sims (time_request "A" "soon") = Continue st' []
          ∧ time_requested <$> simulators st' !! 0%nat = Some 0)
  ∧ (∃ st', step two_sims [frame "B"; frame PUBLISH; frame "x"]
            = Continue st' [zmsg_send ["A"; PUBLISH; "x"]]).
Proof.
  split; eexists; [split|]; by vm_compute.
Qed.

Lemma one_sim_reached : conforming_run (init 1 false) one_sim.
Proof.
  eapply (conforming_run_step _ (hello "A" 2 []) one_sim).
  - unfold hello. eapply conforming_hello; [done|simpl; lia|done|done].
  - by vm_compute.
  - split; [by vm_compute|]. repeat constructor. by vm_compute.
  - apply conforming_run_refl.
Qed.

Lemma one_sim_holds_grant : holds_grant one_sim "A".
Proof. eexists 0%nat, _. by vm_compute. Qed.

Lemma one_sim_at_3_reached : conforming_run one_sim one_sim_at_3.
Proof.
  eapply (conforming_run_step _ (time_request "A" "3") one_sim_at_3).
  - unfold time_request. eapply conforming_time_request;
      [done|exact one_sim_holds_grant|by vm_compute|by vm_compute].
  - by vm_compute.
  - split; [by vm_compute|]. repeat constructor. by vm_compute.
  - apply conforming_run_refl.
Qed.

Lemma granted_time_advances :
  time_granted one_sim <= time_granted one_sim_at_3.
Proof.
  apply (time_granted_monotone_on_conforming_runs 1 false).
  - by vm_compute.
  - exact one_sim_reached.
  - exact one_sim_at_3_reached.
Defined.

(** C7, counterexample.  A simulator that asks for the time 10 and
    then for the time 5 is granted 10 and then 5. *)
Lemma time_granted_goes_back :
  ∃ st1 out1 st2 out2,
    run (init 1 false) [hello "A" 1 []; time_request "A" "10"]
    = (Polling st1, out1)
    ∧ step st1 (time_request "A" "5") = Continue st2 out2
    ∧ time_granted st1 = 10
    ∧ time_granted st2 = 5.
Proof. eexists _, _, _, _. split; [by vm_compute|]. by vm_compute. Qed.

(** The messages of the run [uneven_two_rounds] keep to the ticks. *)
Lemma on_tick_hello st sender delta topics :
  on_tick st (hello sender delta topics).
Proof. intros fsender ftype rest [= <- <- <-]. by split. Qed.

Lemma on_tick_time_request st sender text index r t :
  name_to_index st !! sender = Some index →
  simulators st !! index = Some r →
  read_ull text = Some t →
  (time_delta r | t) →
  on_tick st (time_request sender text).
Proof.
  intros Hindex Hr Hread Hdiv fsender ftype rest [= <- <- <-].
  split; [done|]. intros _ f rest' index' r' t' [= <- <-] ? ? ?.
  simpl in *. by simplify_eq.
Qed.

Local Ltac bounded_here :=
  split; [by vm_compute|]; repeat constructor; by vm_compute.

Lemma uneven_two_rounds_reached : tick_run (init 2 false) uneven_two_rounds.
Proof.
  eapply (tick_run_step _ (hello "A" 3 []) (after 2 [hello "A" 3 []])).
  { unfold hello. eapply conforming_hello; [done|simpl; lia|done|done]. }
  { apply on_tick_hello. }
  { by vm_compute. }
  { bounded_here. }
  eapply (tick_run_step _ (hello "B" 2 [])
            (after 2 [hello "A" 3 []; hello "B" 2 []])).
  { unfold hello. eapply conforming_hello;
      [done|vm_compute; lia|done|done]. }
  { apply on_tick_hello. }
  { by vm_compute. }
  { bounded_here. }
  eapply (tick_run_step _ (time_request "A" "99") uneven_a_done).
  { unfold time_request. eapply conforming_time_request;
      [done|eexists 0%nat, _; by vm_compute|by vm_compute|by vm_compute]. }
  { eapply (on_tick_time_request _ _ _ 0%nat);
      [by vm_compute|by vm_compute|by vm_compute|by exists 33]. }
  { by vm_compute. }
  { bounded_here. }
  eapply (tick_run_step _ (time_request "B" "50") uneven_round).
  { unfold time_request. eapply conforming_time_request;
      [done|eexists 1%nat, _; by vm_compute|by vm_compute|by vm_compute]. }
  { eapply (on_tick_time_request _ _ _ 1%nat);
      [by vm_compute|by vm_compute|by vm_compute|by exists 25]. }
  { by vm_compute. }
  { bounded_here. }
  eapply (tick_run_step _ (time_request "B" "52") uneven_two_rounds).
  { unfold time_request. eapply conforming_time_request;
      [done|eexists 1%nat, _; by vm_compute|by vm_compute|by vm_compute]. }
  { eapply (on_tick_time_request _ _ _ 1%nat);
      [by vm_compute|by vm_compute|by vm_compute|by exists 26]. }
  { by vm_compute. }
  { bounded_here. }
  apply tick_run_refl.
Qed.

(** After two rounds, at the times 50 and 52, A of delta 3 has been
    fast-forwarded to 51 and B of delta 2 has answered at 50. *)
Lemma multiples_after_two_rounds :
  time_last_processed <$> simulators uneven_two_rounds = [51; 50]
  ∧ Forall (λ r, (time_delta r | time_last_processed r))
           (simulators uneven_two_rounds).
Proof.
  split; [by vm_compute|].
  apply (time_last_processed_multiple_on_tick_runs 2 false).
  - by vm_compute.
  - exact uneven_two_rounds_reached.
Defined.

(** C6, counterexample.  A simulator of delta 2 that is granted the
    time 3 and answers has [time_last_processed = 3]; and one that has
    answered at the time 4 and then sets its delta to 3 has
    [time_last_processed = 4]. *)
Lemma time_last_processed_not_a_multiple :
  (∃ st out r,
     run (init 1 false)
         [hello "A" 2 []; time_request "A" "3"; time_request "A" "5"]
     = (Polling st, out)
     ∧ simulators st !! 0%nat = Some r
     ∧ time_delta r = 2
     ∧ time_last_processed r = 3
     ∧ ¬ (time_delta r | time_last_processed r))
  ∧ (∃ st out r,
       run (init 1 false)
           [hello "A" 2 []; time_request "A" "4"; time_request "A" "8";
            time_delta_msg "A" "3"]
       = (Polling st, out)
       ∧ simulators st !! 0%nat = Some r
       ∧ time_delta r = 3
       ∧ time_last_processed r = 4
       ∧ ¬ (time_delta r | time_last_processed r)).
Proof.
  split; eexists _, _, _; (split; [by vm_compute|]);
    (split; [by vm_compute|]); (split; [done|]); (split; [done|]);
    simpl; intros [k Hk]; lia.
Qed.
End Scenarios.

(** ** The further statements on concrete runs *)

Module Walkthroughs.
Import Examples.

(** One of two expected simulators has registered, with tracing off. *)
Definition one_of_two : Broker := after 2 [hello "A" 1 ["x"]].

(** Two simulators; A, of delta 0, has answered the first grant asking
    for the time 5. *)
Definition zero_delta_a_done : Broker :=
  after 2 [hello "A" 0 []; hello "B" 1 []; time_request "A" "5"].

(** The state at line 381 when B answers too, asking for the time 3. *)
Definition zero_delta_both_done : Broker :=
  match accounting zero_delta_a_done "B" TIME_REQUEST [frame "3"] with
  | Continue mid _ => mid
  | _ => zero_delta_a_done
  end.

(** A command line for two simulators; no variable is set. *)
Definition two_on_the_command_line : Environment :=
  Env ["fncs_broker"; "2"] None None true true true.

Lemma two_sims_reachable : reachable 2 false two_sims.
Proof.
  eapply (reachable_run 2 false (init 2 false)
            [hello "A" 1 ["x"]; hello "B" 2 []]);
    [apply reachable_init|by vm_compute].
Qed.

Lemma three_sims_a_bye_reachable : reachable 3 false three_sims_a_bye.
Proof.
  eapply (reachable_run 3 false (init 3 false)
            [hello "A" 1 []; hello "B" 1 []; hello "C" 1 []; bye "A"]);
    [apply reachable_init|by vm_compute].
Qed.

Lemma index_of_two_sims :
  (∀ nm i, name_to_index two_sims !! nm = Some i
           ↔ name <$> simulators two_sims !! i = Some nm)
  ∧ NoDup (name <$> simulators two_sims).
Proof.
  destruct (reachable_index_is_inverse_of_names 2 false two_sims)
    as (Hindex & Hnames & _).
  - exact two_sims_reachable.
  - by split.
Defined.

Lemma byes_of_three_sims :
  (size (byes three_sims_a_bye) < n_sims three_sims_a_bye)%nat.
Proof.
  destruct (reachable_byes_are_registered 3 false three_sims_a_bye)
    as (_ & _ & Hopen).
  - lia.
  - exact three_sims_a_bye_reachable.
  - exact Hopen.
Defined.

Lemma unknown_type_broadcasts_die :
  [zmsg_send ["A"; DIE]; zmsg_send ["B"; DIE]]
  = (λ r, zmsg_send [c_str (name r); DIE]) <$> simulators two_sims.
Proof.
  apply (die_is_only_the_broadcast two_sims [frame "A"; frame "NOPE"]).
  by vm_compute.
Defined.

Lemma publish_of_stranger_dies :
  step two_sims (publish "Z" "x" "42")
  = Die ((λ r, zmsg_send [c_str (name r); DIE]) <$> simulators two_sims).
Proof.
  apply (stranger_is_fatal two_sims (frame "Z") (frame PUBLISH)).
  - discriminate.
  - by vm_compute.
Defined.

Lemma second_hello_dies :
  step two_sims (hello "A" 1 [])
  = Die ((λ r, zmsg_send [c_str (name r); DIE]) <$> simulators two_sims).
Proof.
  apply (duplicate_hello_is_fatal two_sims (frame "A") (frame HELLO)).
  - reflexivity.
  - exists 0%nat. by vm_compute.
Defined.

Lemma second_bye_keeps_byes :
  byes (after 3 [hello "A" 1 []; hello "B" 1 []; hello "C" 1 [];
                 bye "A"; bye "A"])
  = byes three_sims_a_bye.
Proof.
  destruct (reachable_duplicate_bye_keeps_byes 3 false three_sims_a_bye
              (frame "A") (frame BYE) []) as [_ Hkeep].
  - exact three_sims_a_bye_reachable.
  - reflexivity.
  - by vm_compute.
  - apply (Hkeep _ [WARN "duplicate BYE from 'A'"]). by vm_compute.
Defined.

Lemma early_publish_is_undefined :
  step one_of_two (publish "A" "x" "1") = Undefined.
Proof.
  apply (publish_before_closure_is_undefined one_of_two
           (frame "A") (frame PUBLISH) (frame "x") [frame "1"]).
  - reflexivity.
  - exists 0%nat. by vm_compute.
  - vm_compute. lia.
  - done.
Defined.

Lemma zero_delta_is_undefined :
  step zero_delta_a_done (time_request "B" "3") = Undefined.
Proof.
  apply (zero_delta_divides_by_zero zero_delta_a_done
           (frame "B") (frame TIME_REQUEST) [frame "3"]
           zero_delta_both_done [] 0%nat
           (Sim "A" 5 0 0 false false ∅)
           (Sim "B" 3 1 0 false false ∅)).
  - by left.
  - by vm_compute.
  - by vm_compute.
  - by vm_compute.
  - by vm_compute.
  - reflexivity.
  - apply (list_elem_of_lookup_2 _ 1%nat). by vm_compute.
  - by vm_compute.
Defined.

Lemma round_of_two_sims_grants :
  ∃ st' out,
    step two_sims_a_done (time_request "B" "100") = Continue st' out
    ∧ 1 <= n_processing st'.
Proof.
  destruct (round_grants_someone two_sims_a_done
              (frame "B") (frame TIME_REQUEST) [frame "100"]
              two_sims_both_done [])
    as (st' & out & r & Hstep & Hone & _).
  - by left.
  - by vm_compute.
  - by vm_compute.
  - exact Scenarios.two_sims_both_done_running.
  - by exists st', out.
Defined.

Lemma fast_forward_from_1_to_7 :
  ∃ k, fast_forward 7 (Sim "A" 9 2 1 false false ∅)
       = Some (Sim "A" 9 2 (1 + k * 2) false false ∅)
       ∧ 1 + k * 2 <= 7 < 1 + k * 2 + 2.
Proof.
  destruct (fast_forward_reaches_last_tick 7 (Sim "A" 9 2 1 false false ∅))
    as (k & _ & Hff & Hle & Hlt).
  - simpl. lia.
  - by vm_compute.
  - simpl. lia.
  - exists k. split; [exact Hff|]. simpl in *. lia.
Defined.

Lemma one_sim_counts :
  n_processing one_sim = count_processing (simulators one_sim).
Proof.
  destruct (conforming_run_keeps_count_and_clock 1 false one_sim)
    as (_ & Hcount & _).
  - by vm_compute.
  - exact Scenarios.one_sim_reached.
  - exact Hcount.
Defined.

Lemma answer_of_one_sim_is_defined :
  step one_sim (time_request "A" "3") ≠ Undefined.
Proof.
  apply (conforming_run_is_defined 1 false one_sim (time_request "A" "3")).
  - by vm_compute.
  - exact Scenarios.one_sim_reached.
  - unfold time_request. eapply conforming_time_request;
      [done|exact Scenarios.one_sim_holds_grant|by vm_compute
      |by vm_compute].
Defined.

Lemma second_time_delta_wins :
  step (after 2 [hello "A" 1 ["x"]; hello "B" 2 []; time_delta_msg "A" "5"])
       (time_delta_msg "A" "7")
  = step two_sims (time_delta_msg "A" "7").
Proof.
  apply (time_delta_last_one_wins two_sims (frame "A") (frame TIME_DELTA)
           (frame "5") [] (frame "7") [] _ []).
  - reflexivity.
  - by vm_compute.
Defined.

Lemma publish_again :
  ∃ st' out,
    step two_sims (publish "B" "x" "42") = Continue st' out
    ∧ step st' (publish "B" "x" "42") = Continue st' out.
Proof.
  apply (publish_twice_is_publish_once two_sims
           (frame "B") (frame PUBLISH) (frame "x") [frame "42"]).
  - reflexivity.
  - exists 1%nat. by vm_compute.
  - reflexivity.
  - done.
Defined.

Lemma startup_for_two :
  ∃ n, init 2 false = init n false ∧ 0 < Z.of_nat n <= INT_MAX.
Proof.
  destruct (startup_enters_with_n_sims_in_range two_on_the_command_line
              (init 2 false) "tcp://*:5570" false)
    as (n & Hst & Hn & _).
  - by vm_compute.
  - by exists n.
Defined.

Lemma default_delta_reads_back :
  read_ull (fmt_llu default_time_delta) = Some default_time_delta.
Proof.
  apply (printed_time_reads_back default_time_delta).
  by vm_compute.
Defined.

End Walkthroughs.
